(** * A ReAct agent loop: shallow embedding of [react_agent.py]

    The development follows the layout of the Python module:

    - [PyStr]: the [str] operations the agent uses ([strip], [split],
      [replace], [startswith], [in]);
    - [Json]: the value domain of [json.loads] and a decoder for it, with
      the two limits of the interpreter that make it raise something else
      than [JSONDecodeError];
    - [Tool]: the tool wrapper and its [execute] method;
    - [ReActAgent]: the agent, its action parser and the [run] loop.

    A Python [str] is a sequence of Unicode code points, so it is modelled
    as [list N]; Rocq string literals, all ASCII here, are read through the
    coercion [py].

    What lies outside the program is a parameter: the state of the world
    (clock, network), the limits of the interpreter, the chat completion
    endpoint and the four registered capabilities.  The two lines of prose
    that precede the docstring of the module are not part of the program. *)

From Stdlib Require Import List NArith ZArith Bool Ascii String Lia
  DecimalString.
Import ListNotations.

Open Scope string_scope.
Open Scope list_scope.

(* ================================================================== *)
(** ** Python strings *)

Module PyStr.

Definition str := list N.

Definition py (s : string) : list N :=
  List.map N_of_ascii (list_ascii_of_string s).

Fixpoint str_eqb (a b : str) : bool :=
  match a, b with
  | [], [] => true
  | x :: a', y :: b' => N.eqb x y && str_eqb a' b'
  | _, _ => false
  end.

(** [str.isspace] on one code point: the characters [str.strip()] removes. *)
Definition is_space (c : N) : bool :=
  ((9 <=? c) && (c <=? 13) || (28 <=? c) && (c <=? 32)
   || (c =? 133) || (c =? 160) || (c =? 5760)
   || (8192 <=? c) && (c <=? 8202) || (c =? 8232) || (c =? 8233)
   || (c =? 8239) || (c =? 8287) || (c =? 12288))%N.

Fixpoint lstrip (s : str) : str :=
  match s with
  | c :: r => if is_space c then lstrip r else s
  | [] => []
  end.

Definition rstrip (s : str) : str := rev (lstrip (rev s)).

(** [s.strip()] *)
Definition strip (s : str) : str := rstrip (lstrip s).

(** [s.startswith(p)] *)
Fixpoint startswith (s p : str) {struct p} : bool :=
  match p, s with
  | [], _ => true
  | x :: p', y :: s' => N.eqb x y && startswith s' p'
  | _ :: _, [] => false
  end.

(** [p in s] *)
Fixpoint contains (p s : str) : bool :=
  startswith s p ||
  match s with
  | [] => false
  | _ :: r => contains p r
  end.

(** [s.split(sep)] for a non-empty [sep]: the pieces between the
    non-overlapping occurrences of [sep], found left to right.  [skip]
    counts the characters of a matched separator still to be dropped and
    [cur] holds the current piece, reversed. *)
Fixpoint split_from (sep : str) (skip : nat) (cur s : str) : list str :=
  match s with
  | [] => [rev cur]
  | c :: r =>
      match skip with
      | S k => split_from sep k cur r
      | O =>
          if startswith s sep
          then rev cur :: split_from sep (List.length sep - 1) [] r
          else split_from sep 0 (c :: cur) r
      end
  end.

Definition split (s sep : str) : list str := split_from sep 0 [] s.

(** [s.split(sep, 1)]: at most one split, at the first occurrence. *)
Fixpoint split1_from (sep cur s : str) : list str :=
  if startswith s sep then [rev cur; skipn (List.length sep) s]
  else match s with
       | [] => [rev cur]
       | c :: r => split1_from sep (c :: cur) r
       end.

Definition split1 (s sep : str) : list str := split1_from sep [] s.

(** [s.replace(old, new)] for a non-empty [old]: every non-overlapping
    occurrence is replaced, left to right. *)
Fixpoint replace_from (old new : str) (skip : nat) (s : str) : str :=
  match s with
  | [] => []
  | c :: r =>
      match skip with
      | S k => replace_from old new k r
      | O =>
          if startswith s old
          then new ++ replace_from old new (List.length old - 1) r
          else c :: replace_from old new 0 r
      end
  end.

Definition replace (s old new : str) : str := replace_from old new 0 s.

(** [sep.join(parts)] *)
Fixpoint join (sep : str) (parts : list str) : str :=
  match parts with
  | [] => []
  | [p] => p
  | p :: rest => p ++ sep ++ join sep rest
  end.

End PyStr.

Export PyStr.
Coercion py : string >-> list.

(** The double quote, which the literals of this file do not hold, and the
    line feed. *)
Definition dq : str := [34%N].
Definition nl : str := [10%N].

(* ================================================================== *)
(** ** Exceptions

    Only the exception classes that the agent's control flow tells apart
    are modelled.  [JSONDecodeError] is what [json.loads] raises on a text
    that is not JSON; [RecursionError] is what it raises when the arrays
    and objects of the text are nested deeper than the interpreter lets the
    decoder go; [ValueError] stands for the plain [ValueError] that it
    raises on an integer literal with more digits than the interpreter
    converts ([JSONDecodeError] is a subclass of [ValueError], and kept
    apart here, because the parser catches the subclass only);
    [TypeError] is what a call that unpacks [x] into keyword arguments
    raises when [x] cannot be bound to the parameters of the callee;
    [IndexError] is what indexing a list past its end raises. *)

Inductive exn :=
| JSONDecodeError
| RecursionError
| ValueError
| TypeError
| IndexError.

Inductive result (A : Type) :=
| Ok (a : A)
| Raise (e : exn).
Arguments Ok {A} a.
Arguments Raise {A} e.

(* ================================================================== *)
(** ** JSON values and [json.loads] *)

Module Json.

(** The Python objects [json.loads] can return.  An [int] is kept exactly;
    a [float] is kept as the literal that denotes it. *)
#[local] Unset Elimination Schemes.
Inductive value :=
| VNone
| VBool (b : bool)
| VInt (z : Z)
| VFloat (lexeme : str)
| VStr (s : str)
| VList (items : list value)
| VDict (items : list (str * value)).
#[local] Set Elimination Schemes.

(** A [dict] with [str] keys, in insertion order. *)
Section Dict.
Context {A : Type}.

Fixpoint dict_get (d : list (str * A)) (k : str) : option A :=
  match d with
  | [] => None
  | (k', v) :: rest => if str_eqb k' k then Some v else dict_get rest k
  end.

(** [d[k] = v]: an existing key keeps its position. *)
Fixpoint dict_set (d : list (str * A)) (k : str) (v : A) : list (str * A) :=
  match d with
  | [] => [(k, v)]
  | (k', v') :: rest =>
      if str_eqb k' k then (k', v) :: rest else (k', v') :: dict_set rest k v
  end.

Definition dict_has (d : list (str * A)) (k : str) : bool :=
  match dict_get d k with Some _ => true | None => false end.

End Dict.

(** What the decoder runs into besides the grammar: the interpreter stops
    a recursion that goes too deep, and refuses to convert a decimal
    literal to an [int] when it has too many digits.

    [max_depth] is the number of arrays and objects that the decoder may
    have open at once: what the call of [json.loads] has left of
    [sys.getrecursionlimit()].  [int_max_str_digits] is
    [sys.get_int_max_str_digits()]; zero switches the check off, and the
    interpreter checks no literal of 640 digits or fewer. *)
Record limits := {
  max_depth : nat;
  int_max_str_digits : nat
}.

(** An interpreter with the defaults of CPython 3.11: 4300 digits, and a
    recursion limit of 1000, of which the call of [json.loads] in the
    parser of the agent has some 990 levels left (how many exactly depends
    on how deep the caller of the agent stands). *)
Definition cpython : limits :=
  {| max_depth := 990; int_max_str_digits := 4300 |}.

Definition int_str_threshold : nat := 640.

Definition too_many_digits (lim : limits) (ds : str) : bool :=
  Nat.ltb int_str_threshold (List.length ds)
  && Nat.ltb 0 (int_max_str_digits lim)
  && Nat.ltb (int_max_str_digits lim) (List.length ds).

(** How a scan ends: with a value and the text after it, with an exception,
    or because the [fuel] of the model ran out (which [loads] never lets
    happen, see [scan_fuel]). *)
Inductive scan (A : Type) :=
| Parsed (a : A) (rest : str)
| Failed (e : exn)
| OutOfFuel.
Arguments Parsed {A} a rest.
Arguments Failed {A} e.
Arguments OutOfFuel {A}.

#[local] Abbreviation Invalid := (Failed JSONDecodeError).

Definition is_ws (c : N) : bool :=
  ((c =? 32) || (c =? 9) || (c =? 10) || (c =? 13))%N.

Fixpoint skip_ws (s : str) : str :=
  match s with
  | c :: r => if is_ws c then skip_ws r else s
  | [] => []
  end.

(** [s[0] == c], false on the empty string. *)
Definition head_is (c : N) (s : str) : bool :=
  match s with
  | x :: _ => (x =? c)%N
  | [] => false
  end.

Definition is_digit (c : N) : bool := ((48 <=? c) && (c <=? 57))%N.

Fixpoint digits (s : str) : str :=
  match s with
  | c :: r => if is_digit c then c :: digits r else []
  | [] => []
  end.

Definition int_of_digits (ds : str) : Z :=
  fold_left (fun acc c => (10 * acc + Z.of_N (c - 48))%Z) ds 0%Z.

(** The number grammar of the scanner, longest match: an optional minus
    sign; an integer part, either a single zero or a non-zero digit
    followed by digits; an optional fraction, a dot and at least one digit;
    an optional exponent, [e] or [E], an optional sign and at least one
    digit.  A literal with a fraction or an exponent is a [float]; any
    other is converted by [int], which counts its digits first. *)
Definition int_part (s : str) : str :=
  match s with
  | c :: _ =>
      if (c =? 48)%N then [c]
      else if is_digit c then digits s else []
  | [] => []
  end.

Definition frac_part (s : str) : str :=
  if head_is 46 s then
    match digits (tl s) with
    | [] => []
    | ds => 46%N :: ds
    end
  else [].

Definition exp_part (s : str) : str :=
  match s with
  | e :: r =>
      if ((e =? 101) || (e =? 69))%N then
        let sg :=
          match r with
          | c :: _ => if ((c =? 43) || (c =? 45))%N then [c] else []
          | [] => []
          end in
        match digits (skipn (List.length sg) r) with
        | [] => []
        | ds => e :: sg ++ ds
        end
      else []
  | [] => []
  end.

Definition scan_number (lim : limits) (s : str) : scan value :=
  let sign := if head_is 45 s then [45%N] else [] in
  let s1 := skipn (List.length sign) s in
  match int_part s1 with
  | [] => Invalid
  | (_ :: _) as ip =>
      let s2 := skipn (List.length ip) s1 in
      let fp := frac_part s2 in
      let s3 := skipn (List.length fp) s2 in
      let ep := exp_part s3 in
      let s4 := skipn (List.length ep) s3 in
      match fp, ep with
      | [], [] =>
          if too_many_digits lim ip then Failed ValueError
          else
            let n := int_of_digits ip in
            Parsed (VInt (match sign with [] => n | _ => Z.opp n end)) s4
      | _, _ => Parsed (VFloat (sign ++ ip ++ fp ++ ep)) s4
      end
  end.

Definition hex_digit (c : N) : option N :=
  if is_digit c then Some (c - 48)%N
  else if ((97 <=? c) && (c <=? 102))%N then Some (c - 87)%N
  else if ((65 <=? c) && (c <=? 70))%N then Some (c - 55)%N
  else None.

(** The four hexadecimal digits of a [\uXXXX] escape. *)
Definition hex4 (s : str) : option N :=
  match s with
  | a :: b :: c :: d :: _ =>
      match hex_digit a, hex_digit b, hex_digit c, hex_digit d with
      | Some x, Some y, Some z, Some w =>
          Some (((x * 16 + y) * 16 + z) * 16 + w)%N
      | _, _, _, _ => None
      end
  | _ => None
  end.

Definition unescape (e : N) : option N :=
  if ((e =? 34) || (e =? 92) || (e =? 47))%N then Some e
  else if (e =? 98)%N then Some 8%N
  else if (e =? 102)%N then Some 12%N
  else if (e =? 110)%N then Some 10%N
  else if (e =? 114)%N then Some 13%N
  else if (e =? 116)%N then Some 9%N
  else None.

Definition is_high_surrogate (u : N) : bool :=
  ((55296 <=? u) && (u <=? 56319))%N.
Definition is_low_surrogate (u : N) : bool :=
  ((56320 <=? u) && (u <=? 57343))%N.
Definition join_surrogates (u u2 : N) : N :=
  (65536 + ((u - 55296) * 1024 + (u2 - 56320)))%N.

(** The body of a string literal, after its opening quote, in strict mode.
    [skip] counts the characters of an escape that were already decoded. *)
Fixpoint scanstring_from (skip : nat) (acc s : str) : option (str * str) :=
  match s with
  | [] => None
  | c :: r =>
      match skip with
      | S k => scanstring_from k acc r
      | O =>
          if (c =? 34)%N then Some (rev acc, r)
          else if (c =? 92)%N then
            match r with
            | [] => None
            | e :: r1 =>
                if (e =? 117)%N then
                  match hex4 r1 with
                  | None => None
                  | Some u =>
                      if is_high_surrogate u
                         && startswith (skipn 4 r1) [92%N; 117%N]
                      then
                        match hex4 (skipn 6 r1) with
                        | None => None
                        | Some u2 =>
                            if is_low_surrogate u2
                            then scanstring_from 11
                                   (join_surrogates u u2 :: acc) r
                            else scanstring_from 5 (u :: acc) r
                        end
                      else scanstring_from 5 (u :: acc) r
                  end
                else
                  match unescape e with
                  | Some ch => scanstring_from 1 (ch :: acc) r
                  | None => None
                  end
            end
          else if (c <=? 31)%N then None
          else scanstring_from 0 (c :: acc) r
      end
  end.

Definition scanstring (s : str) : option (str * str) := scanstring_from 0 [] s.

(** [scan_once]: one JSON value at the head of [s].  An array or an object
    is entered only if the interpreter allows one more level, and [depth]
    counts the levels left; the array and object loops are entered after
    the opening bracket, at the first element or member.  An exception
    ends the scan where it is raised.  Every recursive call spends one unit
    of [fuel]. *)
Fixpoint scan_once (lim : limits) (fuel depth : nat) (s : str) : scan value :=
  match fuel with
  | O => OutOfFuel
  | S f =>
      if head_is 34 s then
        match scanstring (tl s) with
        | Some (v, rest) => Parsed (VStr v) rest
        | None => Invalid
        end
      else if head_is 123 s then
        match depth with
        | O => Failed RecursionError
        | S d =>
            let s1 := skip_ws (tl s) in
            if head_is 125 s1 then Parsed (VDict []) (tl s1)
            else parse_object lim f d [] s1
        end
      else if head_is 91 s then
        match depth with
        | O => Failed RecursionError
        | S d =>
            let s1 := skip_ws (tl s) in
            if head_is 93 s1 then Parsed (VList []) (tl s1)
            else parse_array lim f d [] s1
        end
      else if startswith s "null" then Parsed VNone (skipn 4 s)
      else if startswith s "true" then Parsed (VBool true) (skipn 4 s)
      else if startswith s "false" then Parsed (VBool false) (skipn 5 s)
      else if startswith s "NaN" then Parsed (VFloat "NaN") (skipn 3 s)
      else if startswith s "Infinity"
      then Parsed (VFloat "Infinity") (skipn 8 s)
      else if startswith s "-Infinity"
      then Parsed (VFloat "-Infinity") (skipn 9 s)
      else scan_number lim s
  end

with parse_array (lim : limits) (fuel depth : nat) (acc : list value)
    (s : str) : scan value :=
  match fuel with
  | O => OutOfFuel
  | S f =>
      match scan_once lim f depth s with
      | Parsed v rest =>
          let s1 := skip_ws rest in
          if head_is 93 s1 then Parsed (VList (rev (v :: acc))) (tl s1)
          else if head_is 44 s1
          then parse_array lim f depth (v :: acc) (skip_ws (tl s1))
          else Invalid
      | Failed e => Failed e
      | OutOfFuel => OutOfFuel
      end
  end

with parse_object (lim : limits) (fuel depth : nat)
    (acc : list (str * value)) (s : str) : scan value :=
  match fuel with
  | O => OutOfFuel
  | S f =>
      if head_is 34 s then
        match scanstring (tl s) with
        | Some (key, r1) =>
            let s1 := skip_ws r1 in
            if head_is 58 s1 then
              match scan_once lim f depth (skip_ws (tl s1)) with
              | Parsed v rest =>
                  let s2 := skip_ws rest in
                  if head_is 125 s2
                  then Parsed (VDict (dict_set acc key v)) (tl s2)
                  else if head_is 44 s2
                  then parse_object lim f depth (dict_set acc key v)
                         (skip_ws (tl s2))
                  else Invalid
              | Failed e => Failed e
              | OutOfFuel => OutOfFuel
              end
            else Invalid
        | None => Invalid
        end
      else Invalid
  end.

(** [JSONDecoder.decode]: one value between optional whitespace, and
    nothing after it. *)
Definition decode (lim : limits) (s : str) : scan value :=
  let s0 := skip_ws s in
  match scan_once lim (2 * List.length s0 + 1) (max_depth lim) s0 with
  | Parsed v rest =>
      match skip_ws rest with
      | [] => Parsed v []
      | _ :: _ => Invalid
      end
  | Failed e => Failed e
  | OutOfFuel => OutOfFuel
  end.

(** [json.loads(s)] for a [str] argument.  A leading byte order mark is
    refused before decoding.  The last case is never taken: the fuel that
    [decode] gives is enough for every text ([scan_fuel]). *)
Definition loads (lim : limits) (s : str) : result value :=
  if head_is 65279 s then Raise JSONDecodeError
  else
    match decode lim s with
    | Parsed v _ => Ok v
    | Failed e => Raise e
    | OutOfFuel => Raise RecursionError
    end.

(** What the fuel argument needs of a scan of [s]: it did not run out of
    fuel, and what it left unread is shorter than [s]. *)
Definition bounded (x : scan value) (s : str) : Prop :=
  x <> OutOfFuel /\
  forall v rest, x = Parsed v rest -> List.length rest < List.length s.

End Json.

Export Json.

(* ================================================================== *)
(** ** class Tool

    A capability is an arbitrary Python callable: it reads and changes the
    world (the clock, the network), and it either returns an object or
    raises.  [Returns s] stands for a call that returned an object [r] with
    [str(r) = s], and [Raises msg] for a call that raised an [Exception]
    [e] with [str(e) = msg]; binding the keyword arguments to the
    capability's parameters is part of the call.  A capability that ends
    the process or is interrupted from the keyboard, which [execute] would
    not catch, is outside the model. *)

Module Tool.

Inductive outcome :=
| Returns (s : str)
| Raises (msg : str).

Section WithWorld.
Context {World : Type}.

Definition capability := list (str * value) -> World -> outcome * World.

Record t := {
  name : str;
  description : str;
  function : capability
}.

(** [def execute(self, **kwargs)] *)
Definition execute (self : t) (kwargs : list (str * value)) (w : World)
    : str * World :=
  match function self kwargs w with
  | (Returns s, w') => (s, w')
  | (Raises msg, w') => ("Error executing " ++ name self ++ ": " ++ msg, w')
  end.

(** The call [tool.execute( **tool_input )] as the interpreter performs it:
    the unpacked operand must be a mapping, and none of its keys may name
    the positional parameter [self] of [execute].  Both checks happen
    before the body of [execute], hence outside its [try]. *)
Definition call_execute (tool : t) (tool_input : value) (w : World)
    : result (str * World) :=
  match tool_input with
  | VDict kwargs =>
      if dict_has kwargs "self" then Raise TypeError
      else Ok (execute tool kwargs w)
  | _ => Raise TypeError
  end.

End WithWorld.
Arguments t World : clear implicits.
Arguments capability World : clear implicits.

End Tool.

(* ================================================================== *)
(** ** class ReActAgent *)

Module ReActAgent.

(** One entry of the message list, [{"role": ..., "content": ...}]. *)
Record message := { role : str; content : str }.

Section Agent.
Context {World : Type}.

(** The limits of the interpreter that runs the agent. *)
Variable lim : Json.limits.

Record t := {
  api_key : str;
  model : str;
  tools : list (str * Tool.t World);
  conversation_history : list message;
  max_iterations : Z
}.

(** The four capabilities registered by [_setup_tools]: they evaluate an
    expression, read the clock and query two HTTP services. *)
Variables calculator get_current_time get_weather search_arxiv
  : Tool.capability World.

(** The chat completion request of [_call_llm], with everything the method
    does to its reply: a status other than 200 and an exception of the
    request give a text as well.  The endpoint is taken to answer with a
    text, as the annotation of [_call_llm] has it: a reply whose [content]
    is [null], and an interrupt from the keyboard during the request, are
    outside the model. *)
Variable completion : str -> str -> list message -> World -> str * World.

Definition set_tools (self : t) (d : list (str * Tool.t World)) : t :=
  {| api_key := api_key self; model := model self; tools := d;
     conversation_history := conversation_history self;
     max_iterations := max_iterations self |}.

Definition _setup_tools (self : t) : t :=
  let self := set_tools self (dict_set (tools self) "calculator"
    {| Tool.name := "calculator";
       Tool.description := "Evaluates mathematical expressions. Input: expression (string). Example: calculator(expression='2 + 2 * 5')";
       Tool.function := calculator |}) in
  let self := set_tools self (dict_set (tools self) "get_current_time"
    {| Tool.name := "get_current_time";
       Tool.description := "Returns current date and time. Input: timezone (optional, defaults to UTC). Example: get_current_time(timezone='UTC')";
       Tool.function := get_current_time |}) in
  let self := set_tools self (dict_set (tools self) "get_weather"
    {| Tool.name := "get_weather";
       Tool.description := "Gets weather forecast from National Weather Service for US locations. Input: latitude (float), longitude (float). Example: get_weather(latitude=38.8894, longitude=-77.0352)";
       Tool.function := get_weather |}) in
  set_tools self (dict_set (tools self) "search_arxiv"
    {| Tool.name := "search_arxiv";
       Tool.description := "Searches for research papers on arXiv. Input: query (string), max_results (optional, default 3). Example: search_arxiv(query='machine learning', max_results=3)";
       Tool.function := search_arxiv |}).

Definition default_model : str := "openai/gpt-3.5-turbo".

Definition __init__ (api_key model : str) : t :=
  _setup_tools
    {| api_key := api_key; model := model; tools := [];
       conversation_history := []; max_iterations := 10 |}.

Definition _get_tool_descriptions (self : t) : str :=
  join nl
    (List.map (fun '(tool_name, tool) =>
                 "- " ++ tool_name ++ ": " ++ Tool.description tool)
              (tools self)).

Definition _call_llm (self : t) (messages : list message) (w : World)
    : str * World :=
  completion (api_key self) (model self) messages w.

(** The body of the [for] loop of [_parse_action]: one line against the
    pair [(action, action_input)]. *)
Definition parse_line (line : str) (acc : option str * value)
    : result (option str * value) :=
  let '(action, action_input) := acc in
  if startswith line "Action:" then
    Ok (Some (strip (replace line "Action:" "")), action_input)
  else if startswith line "Action Input:" then
    let input_str := strip (replace line "Action Input:" "") in
    match Json.loads lim input_str with
    | Ok v => Ok (action, v)
    | Raise JSONDecodeError =>
        Ok (action, VDict [(py "input", VStr input_str)])
    | Raise e => Raise e
    end
  else Ok acc.

Fixpoint scan_lines (lines : list str) (acc : option str * value)
    : result (option str * value) :=
  match lines with
  | [] => Ok acc
  | line :: rest =>
      match parse_line line acc with
      | Ok acc' => scan_lines rest acc'
      | Raise e => Raise e
      end
  end.

Definition _parse_action (llm_response : str) : result (option str * value) :=
  let lines := split (strip llm_response) nl in
  scan_lines lines (None, VNone).

(** The interpreter state of one call of [run]: the agent object, the
    world, the local variables [messages] and [steps], and a ghost counter
    of the calls of [_call_llm] made so far. *)
Record frame := {
  self : t;
  world : World;
  messages : list message;
  steps : Z;
  calls : nat
}.

(** How one pass through the body of the [while] loop ends: at a [return],
    with an exception, or at the end of the body (also by [continue]). *)
Inductive step :=
| Return (answer : str)
| Throw (e : exn)
| Next.

Definition system_prompt (self : t) : str :=
  "You are a helpful ReAct agent.

Available tools:
" ++ _get_tool_descriptions self ++ "

If you mention a tool or say you can use a tool, you MUST immediately use it by emitting an Action and Action Input.
Never describe tool usage without performing it.

To use a tool, respond with:
Thought: [your reasoning about what to do next]
Action: [tool_name]
Action Input: {" ++ dq ++ "param_name" ++ dq ++ ": " ++ dq ++ "param_value" ++ dq ++ "}

When you have enough information to answer the question, respond with:
Thought: [your reasoning]
Final Answer: [your complete answer to the user's question]

Always think step by step and use tools when you need information.".

Definition exhausted : str :=
  "I couldn't complete the task within the iteration limit.".

(** The body of the [while] loop of [run]. *)
Definition iteration (st : frame) : step * frame :=
  let '(response_text, w1) := _call_llm (self st) (messages st) (world st) in
  let messages1 :=
    messages st ++ [{| role := "assistant"; content := response_text |}] in
  let st1 :=
    {| self := self st; world := w1; messages := messages1;
       steps := steps st; calls := S (calls st) |} in
  if contains "Final Answer:" response_text then
    match nth_error (split1 response_text "Final Answer:") 1 with
    | Some tail => (Return (strip tail), st1)
    | None => (Throw IndexError, st1)
    end
  else
    match _parse_action response_text with
    | Raise e => (Throw e, st1)
    | Ok (None, _) | Ok (Some [], _) => (Return response_text, st1)
    | Ok (Some tool_name, tool_input) =>
        let tool_input :=
          match tool_input with
          | VNone => VDict []
          | _ => tool_input
          end in
        match dict_get (tools (self st)) tool_name with
        | None =>
            (Next,
             {| self := self st; world := w1;
                messages := messages1 ++
                  [{| role := "user";
                      content := "Observation: Tool '" ++ tool_name
                                 ++ "' not found." |}];
                steps := steps st + 1; calls := S (calls st) |})
        | Some tool =>
            match Tool.call_execute tool tool_input w1 with
            | Raise e => (Throw e, st1)
            | Ok (observation, w2) =>
                (Next,
                 {| self := self st; world := w2;
                    messages := messages1 ++
                      [{| role := "user";
                          content := "Observation: " ++ observation |}];
                    steps := steps st + 1; calls := S (calls st) |})
            end
        end
    end.

(** [while steps < self.max_iterations: ...] followed by the final
    [return].  [fuel] bounds the number of passes; [None] means that the
    bound was too small. *)
Fixpoint loop (fuel : nat) (st : frame) : option (result str * frame) :=
  if (steps st <? max_iterations (self st))%Z then
    match fuel with
    | O => None
    | S fuel' =>
        match iteration st with
        | (Return answer, st') => Some (Ok answer, st')
        | (Throw e, st') => Some (Raise e, st')
        | (Next, st') => loop fuel' st'
        end
    end
  else Some (Ok exhausted, st).

(** The frame on entry to the loop: [messages] holds the system prompt and
    the query, [steps] is zero. *)
Definition start (self : t) (user_query : str) (w : World) : frame :=
  let messages :=
    [{| role := "system"; content := system_prompt self |}] in
  let messages :=
    messages ++ [{| role := "user"; content := user_query |}] in
  {| self := self; world := w; messages := messages;
     steps := 0; calls := 0 |}.

(** No pass leaves [steps] unchanged and stays in the loop, so
    [max_iterations] passes are all the loop can make. *)
Definition run (self : t) (user_query : str) (w : World)
    : option (result str * frame) :=
  loop (Z.to_nat (max_iterations self)) (start self user_query w).

Definition get_conversation_history (self : t) : list message :=
  conversation_history self.


(** *** Vocabulary of the statements below *)

(** The two tests of the parser's loop, and what a matching line yields. *)
Definition is_action_line (line : str) : bool := startswith line "Action:".
Definition is_input_line (line : str) : bool :=
  startswith line "Action Input:".
Definition action_of (line : str) : str := strip (replace line "Action:" "").
Definition input_text (line : str) : str :=
  strip (replace line "Action Input:" "").
Definition input_of (line : str) : result value :=
  let input_str := input_text line in
  match Json.loads lim input_str with
  | Ok v => Ok v
  | Raise JSONDecodeError => Ok (VDict [(py "input", VStr input_str)])
  | Raise e => Raise e
  end.

(** A line that the parser gets past: if it is an [Action Input:] line,
    [json.loads] raises nothing but [JSONDecodeError] on what it holds. *)
Definition decodes (line : str) : Prop :=
  is_input_line line = true -> exists v, input_of line = Ok v.

(** A text on which the parser returns. *)
Definition parses (text : str) : Prop :=
  exists name input, _parse_action text = Ok (name, input).

(** The frame right after the completion call of one pass: the reply is
    appended as an [assistant] message and the ghost counter ticks. *)
Definition replied (st : frame) (response : str) (w1 : World) : frame :=
  {| self := self st; world := w1;
     messages :=
       messages st ++ [{| role := "assistant"; content := response |}];
     steps := steps st; calls := S (calls st) |}.

(** The frame at the end of a pass that produced [observation]. *)
Definition observed (st : frame) (response observation : str) (w2 : World)
    : frame :=
  {| self := self st; world := w2;
     messages :=
       messages st
       ++ [{| role := "assistant"; content := response |}]
       ++ [{| role := "user"; content := "Observation: " ++ observation |}];
     steps := steps st + 1; calls := S (calls st) |}.

(** A reply without the final-answer marker that asks for a tool the
    registry does not hold. *)
Definition requests_missing_tool (agent : t) (response : str) : Prop :=
  contains "Final Answer:" response = false
  /\ exists name input,
       _parse_action response = Ok (Some name, input)
       /\ name <> [] /\ dict_get (tools agent) name = None.

End Agent.
Arguments t World : clear implicits.
Arguments frame World : clear implicits.

End ReActAgent.

Import ReActAgent.

(* ================================================================== *)
(** ** A closed instance

    A world without state, capabilities that always answer the same, and
    models that always reply the same: enough to run the agent. *)

Module Fixture.

Definition failing : Tool.capability unit :=
  fun _ w => (Tool.Raises "division by zero", w).

Definition constant (s : str) : Tool.capability unit :=
  fun _ w => (Tool.Returns s, w).

Definition agent : ReActAgent.t unit :=
  __init__ failing (constant "12:00") (constant "sunny") (constant "none")
           "key" default_model.

(** A model that gives the same reply to every request. *)
Definition always (reply : str)
    : str -> str -> list message -> unit -> str * unit :=
  fun _ _ _ w => (reply, w).

Definition missing_tool : str := "Action: nope".

Definition array_input : str :=
  "Action: calculator" ++ nl ++ "Action Input: [1]".

Definition both_markers : str :=
  "Action: calculator" ++ nl ++ "Action Input: [1]" ++ nl
  ++ "Final Answer: 42 ".

Definition division : str :=
  "Action: calculator" ++ nl ++ "Action Input: {" ++ dq ++ "expression"
  ++ dq ++ ": " ++ dq ++ "1/0" ++ dq ++ "}".

Definition plain : str := "The answer is four.".



(** A model that first asks for the calculator and answers once it has
    seen an observation; the world counts its replies. *)
Definition two_turns : str -> str -> list message -> nat -> str * nat :=
  fun _ _ _ n =>
    (match n with
     | O => "Action: calculator" ++ nl ++ "Action Input: {" ++ dq
            ++ "expression" ++ dq ++ ": " ++ dq ++ "2+2" ++ dq ++ "}"
     | S _ => py "Final Answer: 4"
     end, S n).

End Fixture.

(* ================================================================== *)
(** ** More vocabulary: inputs, transcripts *)

(** A string that [lstrip] leaves alone: empty, or led by a character that
    is not white space. *)
Definition no_lead (s : str) : Prop :=
  match s with
  | [] => True
  | c :: _ => is_space c = false
  end.

(** A meter on the completion endpoint.  The world is paired with a
    count; the metered endpoint answers as the endpoint does and adds one
    to the count, and a capability beside the meter does what it does and
    leaves the count alone.  The count is then the number of requests that
    the endpoint has served. *)
Section Meter.
Context {World : Type}.

Definition metered
    (completion : str -> str -> list message -> World -> str * World)
    : str -> str -> list message -> World * nat -> str * (World * nat) :=
  fun api_key model messages wn =>
    let '(reply, w') := completion api_key model messages (fst wn) in
    (reply, (w', S (snd wn))).

Definition beside_meter (f : Tool.capability World)
    : Tool.capability (World * nat) :=
  fun kwargs wn =>
    let '(out, w') := f kwargs (fst wn) in (out, (w', snd wn)).

Definition tool_with_meter (tool : Tool.t World) : Tool.t (World * nat) :=
  {| Tool.name := Tool.name tool;
     Tool.description := Tool.description tool;
     Tool.function := beside_meter (Tool.function tool) |}.

Definition with_meter (agent : ReActAgent.t World)
    : ReActAgent.t (World * nat) :=
  {| api_key := api_key agent; model := model agent;
     tools := List.map (fun '(k, tool) => (k, tool_with_meter tool))
                       (tools agent);
     conversation_history := conversation_history agent;
     max_iterations := max_iterations agent |}.

(** A frame of the agent with the meter at the count of the frame. *)
Definition frame_with_meter (st : ReActAgent.frame World)
    : ReActAgent.frame (World * nat) :=
  {| self := with_meter (self st);
     world := (world st, calls st);
     messages := messages st;
     steps := steps st;
     calls := calls st |}.

End Meter.

(** A model that answers every request with one [Action Input:] line. *)
Definition lone_input {World : Type} (payload : str)
    : str -> str -> list message -> World -> str * World :=
  fun _ _ _ w => ("Action Input: " ++ payload, w).

(** A string of white space only. *)
Definition all_space (s : str) : Prop := Forall (fun c => is_space c = true) s.

(** The messages that the passes of one call append: a reply and an
    observation for each completed pass, and the lone reply of the pass
    that ended the call, if one did. *)
Definition turns (passes : list (str * str)) (last_reply : option str)
    : list message :=
  flat_map (fun '(reply, observation) =>
              [ {| role := "assistant"; content := reply |};
                {| role := "user";
                   content := "Observation: " ++ observation |} ])
           passes
  ++ match last_reply with
     | Some reply => [ {| role := "assistant"; content := reply |} ]
     | None => []
     end.

(* ================================================================== *)
(** ** More of Python: [find], slices, [str] of a value *)

Module PyMore.

(** [str(z)] for an [int] *)
Definition str_of_Z (z : Z) : str :=
  py (NilZero.string_of_int (Z.to_int z)).

Definition str_of_nat (n : nat) : str := str_of_Z (Z.of_nat n).

(** [s.find(sub)]: the index of the first occurrence, [-1] without one. *)
Fixpoint find_from (sub : str) (i : Z) (s : str) : Z :=
  if startswith s sub then i
  else match s with
       | [] => (-1)%Z
       | _ :: r => find_from sub (i + 1) r
       end.

Definition find (s sub : str) : Z := find_from sub 0 s.

(** A slice bound brought into [0 .. len]: a negative bound counts from
    the end. *)
Definition clamp (len i : Z) : Z :=
  if (i <? 0)%Z then Z.max 0 (i + len) else Z.min i len.

(** [l[start:stop]], a missing bound written [None]. *)
Definition slice {A : Type} (l : list A) (start stop : option Z) : list A :=
  let len := Z.of_nat (List.length l) in
  let lo := match start with Some i => clamp len i | None => 0%Z end in
  let hi := match stop with Some j => clamp len j | None => len end in
  firstn (Z.to_nat (hi - lo)) (skipn (Z.to_nat lo) l).

(** [enumerate(l, 1)] *)
Definition enumerate1 {A : Type} (l : list A) : list (nat * A) :=
  combine (seq 1 (List.length l)) l.

Section Repr.

(** [repr] of the [float] that a literal denotes, and [repr] of a [str]:
    both are the interpreter's business. *)
Variable repr_float : str -> str.
Variable repr_str : str -> str.

Fixpoint py_repr (v : value) : str :=
  match v with
  | VNone => "None"
  | VBool true => "True"
  | VBool false => "False"
  | VInt z => str_of_Z z
  | VFloat lexeme => repr_float lexeme
  | VStr s => repr_str s
  | VList items => "[" ++ join ", " (List.map py_repr items) ++ "]"
  | VDict items =>
      "{" ++ join ", " (List.map (fun '(k, x) =>
                                   repr_str k ++ ": " ++ py_repr x) items)
      ++ "}"
  end.

(** [str(v)], which is also what an f-string puts for [{v}]. *)
Definition py_str (v : value) : str :=
  match v with
  | VStr s => s
  | _ => py_repr v
  end.

End Repr.

End PyMore.

Export PyMore.

(* ================================================================== *)
(** ** The capabilities registered by [_setup_tools]

    Each capability is a function with named parameters, called with the
    keyword arguments that [execute] received.  What the functions reach
    outside the program is a parameter: the clock, the HTTP client, the
    evaluation of an expression, and the text of the interpreter's own
    error for a call whose keywords do not fit the parameters. *)

Module Builtin.

(** What [requests.get] comes back with: a response, of which the code
    reads the status code and the text, or an exception with its text. *)
Inductive http_result :=
| Response (status_code : Z) (text : str)
| RequestFailed (msg : str).

Section Tools.
Context {World : Type}.
Variable repr_float : str -> str.
Variable repr_str : str -> str.
Variable binding_error : str -> list (str * value) -> str.
Variable strftime_now : World -> str * World.
Variable http_get : str -> list (str * value) -> World -> http_result * World.

(** The body of [calculator], applied to its argument: it returns a text
    or raises what its [except] clause does not catch. *)
Variable calculator_body : value -> World -> Tool.outcome * World.

(** The body of [get_weather], applied to its two arguments: all of it is
    inside a [try] that turns every exception into a text. *)
Variable get_weather_body : value -> value -> World -> str * World.

#[local] Abbreviation py_str := (py_str repr_float repr_str).

(** Whether every keyword is the name of a parameter. *)
Definition accepts (params : list str) (kwargs : list (str * value)) : bool :=
  forallb (fun '(k, _) => existsb (str_eqb k) params) kwargs.

(** [def calculator(expression: str) -> str] *)
Definition calculator : Tool.capability World :=
  fun kwargs w =>
    if accepts [py "expression"] kwargs then
      match dict_get kwargs "expression" with
      | Some expression => calculator_body expression w
      | None => (Tool.Raises (binding_error "calculator" kwargs), w)
      end
    else (Tool.Raises (binding_error "calculator" kwargs), w).

(** [def get_current_time(timezone: str = "UTC") -> str] *)
Definition get_current_time : Tool.capability World :=
  fun kwargs w =>
    if accepts [py "timezone"] kwargs then
      let timezone :=
        match dict_get kwargs "timezone" with
        | Some v => v
        | None => VStr "UTC"
        end in
      let '(now, w') := strftime_now w in
      (Tool.Returns ("Current time: " ++ now ++ " " ++ py_str timezone), w')
    else (Tool.Raises (binding_error "get_current_time" kwargs), w).

(** [def get_weather(latitude: float, longitude: float) -> str] *)
Definition get_weather : Tool.capability World :=
  fun kwargs w =>
    if accepts [py "latitude"; py "longitude"] kwargs then
      match dict_get kwargs "latitude", dict_get kwargs "longitude" with
      | Some latitude, Some longitude =>
          let '(text, w') := get_weather_body latitude longitude w in
          (Tool.Returns text, w')
      | _, _ => (Tool.Raises (binding_error "get_weather" kwargs), w)
      end
    else (Tool.Raises (binding_error "get_weather" kwargs), w).

(** The fields that [search_arxiv] cuts out of one entry of the feed. *)
Definition title_of (entry : str) : str :=
  let title_start := (find entry "<title>" + 7)%Z in
  let title_end := find entry "</title>" in
  strip (slice entry (Some title_start) (Some title_end)).

Definition authors_of (entry : str) : list str :=
  let author_entries := slice (split entry "<name>") (Some 1%Z) None in
  List.map (fun author_entry =>
              let author_end := find author_entry "</name>" in
              strip (slice author_entry None (Some author_end)))
           (slice author_entries None (Some 3%Z)).

Definition summary_of (entry : str) : str :=
  let summary_start := (find entry "<summary>" + 9)%Z in
  let summary_end := find entry "</summary>" in
  slice (strip (slice entry (Some summary_start) (Some summary_end)))
        None (Some 200%Z)
  ++ "...".

(** What one pass of the [for] loop of [search_arxiv] adds to [result]. *)
Definition entry_block (i : nat) (entry : str) : str :=
  (str_of_nat i ++ ". " ++ title_of entry ++ nl)
  ++ ("   Authors: " ++ join ", " (authors_of entry) ++ nl)
  ++ ("   Summary: " ++ summary_of entry ++ nl ++ nl).

(** The bound of [entries[:max_results]]: an [int], a [bool] or [None];
    anything else makes the slice raise [TypeError]. *)
Definition slice_bound (v : value) : option (option Z) :=
  match v with
  | VNone => Some None
  | VInt z => Some (Some z)
  | VBool b => Some (Some (if b then 1 else 0)%Z)
  | _ => None
  end.

(** The body of [search_arxiv], applied to its two arguments. *)
Definition search_arxiv_body (query max_results : value) (w : World)
    : str * World :=
  let base_url : str := "http://export.arxiv.org/api/query" in
  let params :=
    [ (py "search_query", VStr ("all:" ++ py_str query));
      (py "start", VInt 0);
      (py "max_results", max_results) ] in
  match http_get base_url params w with
  | (RequestFailed msg, w') => ("Error searching arXiv: " ++ msg, w')
  | (Response status_code content, w') =>
      if negb (status_code =? 200)%Z then
        ("arXiv API error: Status " ++ str_of_Z status_code, w')
      else
        let entries := slice (split content "<entry>") (Some 1%Z) None in
        match entries with
        | [] => ("No papers found for query: " ++ py_str query, w')
        | _ :: _ =>
            let result :=
              "Found " ++ str_of_nat (List.length entries) ++ " papers for '"
              ++ py_str query ++ "':" ++ nl ++ nl in
            match slice_bound max_results with
            | None =>
                (py "Error searching arXiv: slice indices must be integers or None or have an __index__ method",
                 w')
            | Some stop =>
                (fold_left (fun result '(i, entry) =>
                              result ++ entry_block i entry)
                           (enumerate1 (slice entries None stop))
                           result,
                 w')
            end
        end
  end.

(** [def search_arxiv(query: str, max_results: int = 3) -> str] *)
Definition search_arxiv : Tool.capability World :=
  fun kwargs w =>
    if accepts [py "query"; py "max_results"] kwargs then
      match dict_get kwargs "query" with
      | Some query =>
          let max_results :=
            match dict_get kwargs "max_results" with
            | Some v => v
            | None => VInt 3
            end in
          let '(text, w') := search_arxiv_body query max_results w in
          (Tool.Returns text, w')
      | None => (Tool.Raises (binding_error "search_arxiv" kwargs), w)
      end
    else (Tool.Raises (binding_error "search_arxiv" kwargs), w).

(** [ReActAgent(api_key)] with its four capabilities in place. *)
Definition new_agent (api_key : str) : ReActAgent.t World :=
  __init__ calculator get_current_time get_weather search_arxiv
           api_key default_model.

End Tools.

End Builtin.

(* ================================================================== *)
(** ** [main]: the interactive loop

    The standard input is the sequence of what successive calls of
    [input] do: hand over a line, fail at the end of the input, or be
    interrupted from the keyboard.  The standard output is the sequence of
    the pieces written, one per [print] and one per prompt.  What is outside
    the model of [run] is outside this one: an interrupt while the agent
    runs, and a capability that ends the process. *)

Module Cli.

Inductive event :=
| Line (s : str)
| Eof
| Interrupt.

(** How a pass of the loop of [main] ends: it goes round again, or it
    leaves the loop.  [Stuck] stands for a call of [run] that the bound
    of its loop did not cover. *)
Inductive control := Continue | Break | Stuck.

(** Where [main] stands after the events it was given: back from its
    last statement, or in [input] waiting for the next event. *)
Inductive status := Exited | Reading | Halted.

(** [json.dumps(s)] for a [str], with the default [ensure_ascii]. *)
Definition hex_char (d : N) : N :=
  (if d <? 10 then 48 + d else 87 + d)%N.

Definition u_escape (n : N) : str :=
  [ 92; 117; hex_char (n / 4096 mod 16); hex_char (n / 256 mod 16);
    hex_char (n / 16 mod 16); hex_char (n mod 16) ]%N.

Definition escape_char (c : N) : str :=
  if (c =? 92)%N then [92; 92]%N
  else if (c =? 34)%N then [92; 34]%N
  else if (c =? 8)%N then [92; 98]%N
  else if (c =? 12)%N then [92; 102]%N
  else if (c =? 10)%N then [92; 110]%N
  else if (c =? 13)%N then [92; 114]%N
  else if (c =? 9)%N then [92; 116]%N
  else if ((32 <=? c) && (c <=? 126))%N then [c]
  else if (c <? 65536)%N then u_escape c
  else
    let n := (c - 65536)%N in
    u_escape (55296 + (n / 1024) mod 1024)
    ++ u_escape (56320 + n mod 1024).

Definition encode_str (s : str) : str := dq ++ flat_map escape_char s ++ dq.

(** One message of the history, as [json.dumps] writes a dictionary one
    level down with [indent=2]. *)
Definition dump_message (m : message) : str :=
  "{" ++ nl
  ++ "    " ++ dq ++ "role" ++ dq ++ ": " ++ encode_str (role m) ++ "," ++ nl
  ++ "    " ++ dq ++ "content" ++ dq ++ ": " ++ encode_str (content m) ++ nl
  ++ "  }".

(** [json.dumps(history, indent=2)] *)
Definition dumps (history : list message) : str :=
  match history with
  | [] => "[]"
  | _ :: _ =>
      "[" ++ nl ++ "  "
      ++ join ("," ++ nl ++ "  ") (List.map dump_message history)
      ++ nl ++ "]"
  end.

(** [print(s)] *)
Definition print (s : str) : str := s ++ nl.

Definition prompt : str := "You: ".

Section Main.
Context {World : Type}.
Variable lim : Json.limits.
Variables calculator get_current_time get_weather search_arxiv
  : Tool.capability World.
Variable completion : str -> str -> list message -> World -> str * World.

(** [str.lower], and [str(e)] for an exception that [run] let out. *)
Variable lower : str -> str.
Variable describe : exn -> str.

(** The body of the [while True] loop, on what [input] does. *)
Definition main_pass (agent : ReActAgent.t World) (ev : event) (w : World)
    : list str * control * ReActAgent.t World * World :=
  match ev with
  | Interrupt => ([prompt; print (nl ++ nl ++ "Goodbye!")], Break, agent, w)
  | Eof =>
      ([prompt; print (nl ++ "Error: " ++ "EOF when reading a line");
        print ""],
       Continue, agent, w)
  | Line s =>
      let user_input := strip s in
      match user_input with
      | [] => ([prompt], Continue, agent, w)
      | _ :: _ =>
          if str_eqb (lower user_input) "quit"
             || str_eqb (lower user_input) "exit"
          then ([prompt; print "Goodbye!"], Break, agent, w)
          else if str_eqb (lower user_input) "history" then
            ([prompt; print (nl ++ "Conversation History:");
              print (dumps (get_conversation_history agent));
              print ""],
             Continue, agent, w)
          else
            match run lim completion agent user_input w with
            | Some (Ok response, st) =>
                ([prompt; print (nl ++ "Agent is thinking...");
                  print (nl ++ "Agent: " ++ response);
                  print ""],
                 Continue, self st, world st)
            | Some (Raise e, st) =>
                ([prompt; print (nl ++ "Agent is thinking...");
                  print (nl ++ "Error: " ++ describe e);
                  print ""],
                 Continue, self st, world st)
            | None =>
                ([prompt; print (nl ++ "Agent is thinking...")],
                 Stuck, agent, w)
            end
      end
  end.

(** The loop of [main] on a finite run of events. *)
Fixpoint main_loop (agent : ReActAgent.t World) (events : list event)
    (w : World) : list str * status * World :=
  match events with
  | [] => ([], Reading, w)
  | ev :: rest =>
      match main_pass agent ev w with
      | (out, Continue, agent', w') =>
          let '(out', s, w'') := main_loop agent' rest w' in
          (out ++ out', s, w'')
      | (out, Break, _, w') => (out, Exited, w')
      | (out, Stuck, _, w') => (out, Halted, w')
      end
  end.

Definition banner : list str :=
  [ print (repeat 61%N 60); print "ReAct Agent - Interactive CLI";
    print (repeat 61%N 60); print "" ].

Definition missing_key : list str :=
  [ print "Error: OPENROUTER_API_KEY not found in environment variables.";
    print "Please create a .env file with your OpenRouter API key.";
    print "Example: OPENROUTER_API_KEY=your_api_key_here" ].

Definition greeting : list str :=
  [ print "Agent ready!"; print ""; print "Available tools:";
    print "- calculator: Evaluate mathematical expressions";
    print "- get_current_time: Get current date and time";
    print "- get_weather: Get weather forecast (US locations)";
    print "- search_arxiv: Search for research papers";
    print "";
    print "Type 'quit' or 'exit' to end the session.";
    print "Type 'history' to see the conversation history.";
    print "" ].

(** [main()], given the value of [OPENROUTER_API_KEY] in the environment
    and the events of the standard input. *)
Definition main (getenv : option str) (events : list event) (w : World)
    : list str * status * World :=
  match getenv with
  | None | Some [] => (banner ++ missing_key, Exited, w)
  | Some api_key =>
      let agent :=
        __init__ calculator get_current_time get_weather search_arxiv
                 api_key default_model in
      let '(out, s, w') := main_loop agent events w in
      (banner ++ [print "Initializing ReAct Agent..."] ++ greeting ++ out,
       s, w')
  end.

(** The events that end the session: an interrupt, and a line that reads
    [quit] or [exit] once trimmed and put in lower case. *)
Definition ends_session (ev : event) : bool :=
  match ev with
  | Interrupt => true
  | Eof => false
  | Line s =>
      match strip s with
      | [] => false
      | _ :: _ =>
          str_eqb (lower (strip s)) "quit" || str_eqb (lower (strip s)) "exit"
      end
  end.

(** The lines that [main] skips. *)
Definition blank (ev : event) : bool :=
  match ev with
  | Line s => match strip s with [] => true | _ :: _ => false end
  | _ => false
  end.

End Main.

End Cli.

(* ================================================================== *)
(** ** A second closed instance: replies, a feed, a keyboard *)

Module Sample.


Definition empty_action : str := "Thought: hm" ++ nl ++ "Action:   ".

Definition blank_reply : str := "  " ++ nl ++ " ".

(** An agent whose budget was set to zero after it was made. *)
Definition idle_agent : ReActAgent.t unit :=
  {| api_key := api_key Fixture.agent; model := model Fixture.agent;
     tools := tools Fixture.agent;
     conversation_history := conversation_history Fixture.agent;
     max_iterations := 0 |}.

Definition repr_float (lexeme : str) : str := lexeme.
Definition repr_str (s : str) : str := "'" ++ s ++ "'".

Definition binding_error (name : str) (kwargs : list (str * value)) : str :=
  name ++ "() got an unexpected keyword argument".

Definition strftime_now (w : unit) : str * unit := (py "2024-05-01 12:00:00", w).

(** A feed of three entries; the last has none of the tags. *)
Definition feed : str :=
  "<feed><entry><title> T1 </title><name>A</name><name>B</name>"
  ++ "<summary> S1 </summary></entry>"
  ++ "<entry><title>T2</title><name>X</name><name>Y</name><name>Z</name>"
  ++ "<name>W</name><summary>S2</summary></entry><entry>zzz".

Definition serve (content : str)
    : str -> list (str * value) -> unit -> Builtin.http_result * unit :=
  fun _ _ w => (Builtin.Response 200 content, w).

Definition calculator_body (expression : value) (w : unit)
    : Tool.outcome * unit :=
  (Tool.Returns "The result of 2 + 2 is 4", w).

Definition get_weather_body (latitude longitude : value) (w : unit)
    : str * unit :=
  (py "Weather API error: Status 503", w).

Definition new_agent (content : str) : ReActAgent.t unit :=
  Builtin.new_agent repr_float repr_str binding_error strftime_now
    (serve content) calculator_body get_weather_body "key".

(** [str.lower] on ASCII letters. *)
Definition lower (s : str) : str :=
  List.map (fun c => if ((65 <=? c) && (c <=? 90))%N then (c + 32)%N else c) s.

Definition describe (e : exn) : str := "argument after ** must be a mapping".

Definition main (getenv : option str) (events : list Cli.event)
    : list str * Cli.status * unit :=
  Cli.main Json.cpython Fixture.failing (Fixture.constant "12:00")
    (Fixture.constant "sunny") (Fixture.constant "none")
    (Fixture.always "Final Answer: ok") lower describe getenv events tt.

End Sample.

(* ================================================================== *)
(** * Properties *)

Section StrFacts.

Lemma startswith_app (s p : str) :
  startswith s p = true -> s = p ++ skipn (List.length p) s.
Proof.
  revert s; induction p as [|x p IH]; intros [|y s] H; simpl in *;
    try reflexivity; try discriminate.
  apply andb_true_iff in H as [Hxy Hs].
  apply N.eqb_eq in Hxy; subst y. f_equal. now apply IH.
Qed.

Lemma startswith_prefix (p rest : str) : startswith (p ++ rest) p = true.
Proof.
  induction p as [|x p IH]; simpl; [reflexivity|].
  now rewrite N.eqb_refl.
Qed.

(** [split1_from] cuts at the first occurrence of the separator. *)
Lemma split1_from_first (sep : str) :
  forall s cur,
    contains sep s = true ->
    exists before after,
      split1_from sep cur s = [rev cur ++ before; after]
      /\ s = before ++ sep ++ after
      /\ forall i, i < List.length before ->
                   startswith (skipn i s) sep = false.
Proof.
  induction s as [|c r IH]; intros cur H.
  - simpl in H. rewrite orb_false_r in H.
    exists [], (skipn (List.length sep) []). 
    destruct sep; [|discriminate]. simpl. rewrite app_nil_r.
    repeat split. intros i Hi; inversion Hi.
  - cbn [contains] in H. cbn [split1_from].
    destruct (startswith (c :: r) sep) eqn:E.
    + exists [], (skipn (List.length sep) (c :: r)).
      rewrite app_nil_r. repeat split.
      * now apply startswith_app.
      * intros i Hi; inversion Hi.
    + simpl in H. destruct (IH (c :: cur) H) as (b & a & Hsp & Hs & Hfirst).
      exists (c :: b), a. repeat split.
      * rewrite Hsp. simpl. now rewrite <- app_assoc.
      * simpl. now f_equal.
      * intros [|i] Hi; simpl; [exact E|]. apply Hfirst. simpl in Hi. lia.
Qed.

End StrFacts.

Section StripFacts.

Lemma lstrip_no_lead (s : str) : no_lead (lstrip s).
Proof.
  induction s as [|c r IH]; simpl; [exact I|].
  destruct (is_space c) eqn:E; [exact IH | exact E].
Qed.

Lemma lstrip_fixed (s : str) : no_lead s -> lstrip s = s.
Proof. destruct s as [|c r]; simpl; [reflexivity|]. now intros ->. Qed.

Lemma lstrip_suffix (s : str) : exists pre, s = pre ++ lstrip s.
Proof.
  induction s as [|c r [pre IH]]; simpl; [now exists []|].
  destruct (is_space c); [|now exists []].
  exists (c :: pre). simpl. now f_equal.
Qed.

Lemma rstrip_prefix (s : str) : exists suf, s = rstrip s ++ suf.
Proof.
  unfold rstrip. destruct (lstrip_suffix (rev s)) as [pre H].
  exists (rev pre). rewrite <- rev_app_distr, <- H. now rewrite rev_involutive.
Qed.

Lemma rstrip_no_lead (s : str) : no_lead s -> no_lead (rstrip s).
Proof.
  intros H. destruct (rstrip_prefix s) as [suf E].
  destruct (rstrip s) as [|c r]; [exact I|].
  rewrite E in H. exact H.
Qed.

Lemma rstrip_idempotent (s : str) : rstrip (rstrip s) = rstrip s.
Proof.
  unfold rstrip. rewrite rev_involutive.
  now rewrite (lstrip_fixed _ (lstrip_no_lead _)).
Qed.

Lemma strip_idempotent (s : str) : strip (strip s) = strip s.
Proof.
  unfold strip.
  rewrite (lstrip_fixed (rstrip (lstrip s))).
  - apply rstrip_idempotent.
  - apply rstrip_no_lead, lstrip_no_lead.
Qed.

Lemma lstrip_In (s : str) x : In x (lstrip s) -> In x s.
Proof.
  destruct (lstrip_suffix s) as [pre E]. intros H. rewrite E.
  apply in_or_app. now right.
Qed.

Lemma strip_In (s : str) x : In x (strip s) -> In x s.
Proof.
  unfold strip, rstrip. intros H.
  apply lstrip_In. apply in_rev in H. apply lstrip_In in H.
  now apply in_rev in H.
Qed.

(** A string of white space only strips to nothing, and conversely. *)
Lemma lstrip_nil (s : str) : lstrip s = [] -> Forall (fun c => is_space c = true) s.
Proof.
  induction s as [|c r IH]; simpl; [constructor|].
  destruct (is_space c) eqn:E; [|discriminate].
  intros H. constructor; auto.
Qed.

Lemma strip_nil (s : str) : strip s = [] -> Forall (fun c => is_space c = true) s.
Proof.
  unfold strip, rstrip. intros H.
  assert (Hl : lstrip (rev (lstrip s)) = []).
  { apply (f_equal (@rev N)) in H. now rewrite rev_involutive in H. }
  apply lstrip_nil in Hl.
  assert (Hall : Forall (fun c => is_space c = true) (lstrip s)).
  { apply Forall_forall. intros x Hx. rewrite Forall_forall in Hl.
    apply Hl. now apply -> in_rev. }
  destruct (lstrip_suffix s) as [pre E].
  clear H Hl. revert pre E.
  induction s as [|c r IH]; intros pre E; [constructor|].
  simpl in Hall. destruct (is_space c) eqn:Ec.
  - constructor; [exact Ec|]. destruct (lstrip_suffix r) as [pre' E'].
    apply (IH Hall pre' E').
  - exact Hall.
Qed.

(** What [strip] does, in full: it cuts white space, and nothing else, off
    both ends, and leaves none at either end. *)
Lemma lstrip_cut (s : str) :
  exists lead, s = lead ++ lstrip s /\ all_space lead.
Proof.
  induction s as [|c r (lead & IH & Hl)]; simpl.
  { exists []. split; [reflexivity | constructor]. }
  destruct (is_space c) eqn:E.
  - exists (c :: lead). split; [simpl; now f_equal | now constructor].
  - exists []. split; [reflexivity | constructor].
Qed.

Lemma rstrip_cut (s : str) :
  exists trail,
    s = rstrip s ++ trail /\ all_space trail /\ no_lead (rev (rstrip s)).
Proof.
  unfold rstrip. destruct (lstrip_cut (rev s)) as (lead & E & Hl).
  exists (rev lead). repeat apply conj.
  - rewrite <- rev_app_distr, <- E. now rewrite rev_involutive.
  - apply Forall_forall. intros x Hx. apply in_rev in Hx.
    revert x Hx. now apply Forall_forall.
  - rewrite rev_involutive. apply lstrip_no_lead.
Qed.

Lemma strip_cut (s : str) :
  exists lead trail,
    s = lead ++ strip s ++ trail
    /\ all_space lead /\ all_space trail
    /\ no_lead (strip s) /\ no_lead (rev (strip s)).
Proof.
  destruct (lstrip_cut s) as (lead & E & Hl).
  destruct (rstrip_cut (lstrip s)) as (trail & E' & Ht & Hr).
  exists lead, trail. unfold strip. repeat apply conj; try assumption.
  - now rewrite <- E'.
  - apply rstrip_no_lead, lstrip_no_lead.
Qed.

End StripFacts.

Section JsonFacts.
Import Json.

Lemma skip_ws_length (s : str) : List.length (skip_ws s) <= List.length s.
Proof.
  induction s as [|c r IH]; simpl; [lia|].
  destruct (is_ws c); simpl; lia.
Qed.

Lemma scanstring_from_length :
  forall s skip acc v rest,
    scanstring_from skip acc s = Some (v, rest) ->
    List.length rest < List.length s.
Proof.
  induction s as [|c r IH]; intros skip acc v rest H; [discriminate|].
  cbn [scanstring_from] in H. cbn [List.length].
  destruct skip as [|k].
  - destruct (c =? 34)%N.
    { injection H as _ <-. lia. }
    destruct (c =? 92)%N.
    { destruct r as [|e r1]; [discriminate|].
      destruct (e =? 117)%N.
      - destruct (hex4 r1) as [u|]; [|discriminate].
        destruct (is_high_surrogate u && startswith (skipn 4 r1) [92%N; 117%N]).
        + destruct (hex4 (skipn 6 r1)) as [u2|]; [|discriminate].
          destruct (is_low_surrogate u2); apply IH in H; lia.
        + apply IH in H; lia.
      - destruct (unescape e); [|discriminate]. apply IH in H; lia. }
    destruct (c <=? 31)%N; [discriminate|]. apply IH in H; lia.
  - apply IH in H; lia.
Qed.

Lemma skipn_length_lt {A} (n : nat) (l : list A) :
  0 < n -> l <> [] -> List.length (skipn n l) < List.length l.
Proof.
  intros Hn Hl. rewrite length_skipn. destruct l; [congruence|].
  cbn [List.length]. lia.
Qed.

Lemma head_is_length c s :
  head_is c s = true -> List.length (tl s) < List.length s.
Proof. destruct s; [discriminate|]. simpl. lia. Qed.

Lemma tl_length (s : str) : List.length (tl s) <= List.length s.
Proof. destruct s; simpl; lia. Qed.

Lemma startswith_skipn_length (s p : str) n :
  startswith s p = true -> 0 < n <= List.length p ->
  List.length (skipn n s) < List.length s.
Proof.
  intros H Hn. apply startswith_app in H.
  apply (f_equal (@List.length N)) in H. rewrite length_app in H.
  rewrite length_skipn. lia.
Qed.

Lemma scan_number_length lim (s : str) v rest :
  scan_number lim s = Parsed v rest -> List.length rest < List.length s.
Proof.
  unfold scan_number. cbv zeta.
  set (s1 := skipn _ s).
  assert (Hp : List.length s1 <= List.length s)
    by (subst s1; rewrite length_skipn; lia).
  clearbody s1.
  destruct (int_part s1) as [|d ds] eqn:Ei; [discriminate|].
  assert (Hlt : List.length (skipn (List.length (d :: ds)) s1) < List.length s1).
  { apply skipn_length_lt; [simpl; lia|].
    intros ->. discriminate. }
  destruct (frac_part _);
    [destruct (exp_part _);
       [destruct (too_many_digits lim (d :: ds)); [discriminate|]|]|];
    intros H;
    apply (f_equal (fun x => match x with Parsed _ r => r | _ => [] end)) in H;
    cbv beta iota in H; subst rest; rewrite !length_skipn in *; lia.
Qed.

Lemma scan_number_fuel lim (s : str) : scan_number lim s <> OutOfFuel.
Proof.
  unfold scan_number. cbv zeta.
  destruct (int_part _); [discriminate|].
  destruct (frac_part _);
    [destruct (exp_part _); [destruct (too_many_digits _ _)|]|];
    discriminate.
Qed.

Lemma bounded_Failed e s : bounded (Failed e) s.
Proof. split; [discriminate | intros; discriminate]. Qed.

Lemma bounded_Parsed v rest s :
  List.length rest < List.length s -> bounded (Parsed v rest) s.
Proof.
  intros H; split; [discriminate|]. now intros ? ? [= _ <-].
Qed.

Lemma bounded_weaken x s s' :
  bounded x s -> List.length s <= List.length s' -> bounded x s'.
Proof.
  intros [H1 H2] Hle; split; [exact H1|].
  intros v rest E. specialize (H2 v rest E). lia.
Qed.

(** Twice the length of the text, and one more, is fuel enough, whatever
    the depth that the interpreter allows. *)
Lemma scan_fuel lim :
  forall fuel,
    (forall depth s, 2 * List.length s + 1 <= fuel ->
                     bounded (scan_once lim fuel depth s) s)
    /\ (forall depth acc s, 2 * List.length s + 2 <= fuel ->
                            bounded (parse_array lim fuel depth acc s) s)
    /\ (forall depth acc s, 2 * List.length s + 2 <= fuel ->
                            bounded (parse_object lim fuel depth acc s) s).
Proof.
  induction fuel as [|f (IHv & IHa & IHo)].
  - repeat split; intros; lia.
  - repeat apply conj.
    + intros depth s Hf. cbn [scan_once].
      destruct (head_is 34 s) eqn:E1.
      { destruct (scanstring (tl s)) as [[v rest]|] eqn:Es;
          [|apply bounded_Failed].
        apply bounded_Parsed. apply scanstring_from_length in Es.
        pose proof (tl_length s). lia. }
      destruct (head_is 123 s) eqn:E2.
      { destruct depth as [|d]; [apply bounded_Failed|].
        apply head_is_length in E2. cbv zeta.
        pose proof (skip_ws_length (tl s)).
        destruct (head_is 125 _) eqn:E3.
        - apply bounded_Parsed. apply head_is_length in E3. lia.
        - eapply bounded_weaken; [apply IHo|]; lia. }
      destruct (head_is 91 s) eqn:E3.
      { destruct depth as [|d]; [apply bounded_Failed|].
        apply head_is_length in E3. cbv zeta.
        pose proof (skip_ws_length (tl s)).
        destruct (head_is 93 _) eqn:E4.
        - apply bounded_Parsed. apply head_is_length in E4. lia.
        - eapply bounded_weaken; [apply IHa|]; lia. }
      repeat match goal with
             | |- bounded (if startswith s ?p then _ else _) _ =>
                 let E := fresh "E" in
                 destruct (startswith s p) eqn:E;
                 [ apply bounded_Parsed;
                   apply (startswith_skipn_length _ _ _ E); vm_compute; lia | ]
             end.
      split.
      * apply scan_number_fuel.
      * intros v rest. apply scan_number_length.
    + intros depth acc s Hf. cbn [parse_array].
      assert (Hs : 2 * List.length s + 1 <= f) by lia.
      destruct (IHv depth s Hs) as [Hne Hlen].
      destruct (scan_once lim f depth s) as [v rest|e|] eqn:Ev;
        [|apply bounded_Failed|congruence].
      specialize (Hlen v rest eq_refl). cbv zeta.
      pose proof (skip_ws_length rest).
      destruct (head_is 93 _) eqn:E1.
      { apply bounded_Parsed. apply head_is_length in E1. lia. }
      destruct (head_is 44 _) eqn:E2; [|apply bounded_Failed].
      apply head_is_length in E2.
      pose proof (skip_ws_length (tl (skip_ws rest))).
      eapply bounded_weaken; [apply IHa|]; lia.
    + intros depth acc s Hf. cbn [parse_object].
      destruct (head_is 34 s) eqn:E1; [|apply bounded_Failed].
      apply head_is_length in E1.
      destruct (scanstring (tl s)) as [[key r1]|] eqn:Es;
        [|apply bounded_Failed].
      apply scanstring_from_length in Es. cbv zeta.
      pose proof (skip_ws_length r1).
      destruct (head_is 58 _) eqn:E2; [|apply bounded_Failed].
      apply head_is_length in E2.
      pose proof (skip_ws_length (tl (skip_ws r1))).
      assert (Hs : 2 * List.length (skip_ws (tl (skip_ws r1))) + 1 <= f) by lia.
      destruct (IHv depth _ Hs) as [Hne Hlen].
      destruct (scan_once lim f depth _) as [v rest|e|] eqn:Ev;
        [|apply bounded_Failed|congruence].
      specialize (Hlen v rest eq_refl).
      pose proof (skip_ws_length rest).
      destruct (head_is 125 _) eqn:E3.
      { apply bounded_Parsed. apply head_is_length in E3. lia. }
      destruct (head_is 44 _) eqn:E4; [|apply bounded_Failed].
      apply head_is_length in E4.
      pose proof (skip_ws_length (tl (skip_ws rest))).
      eapply bounded_weaken; [apply IHo|]; lia.
Qed.

(** The decoder never runs out of fuel: what [loads] raises comes from the
    text and the limits of the interpreter. *)
Lemma decode_fuel lim (s : str) : decode lim s <> OutOfFuel.
Proof.
  unfold decode. cbv zeta.
  destruct (scan_fuel lim (2 * List.length (skip_ws s) + 1)) as (Hv & _ & _).
  destruct (Hv (max_depth lim) (skip_ws s) (le_n _)) as [Hne _].
  destruct (scan_once _ _ _ _) as [v rest|e|]; [|discriminate|congruence].
  destruct (skip_ws rest); discriminate.
Qed.

(** An exception of [scan_once] and its two loops is one of three. *)
Lemma scan_raises lim :
  forall fuel,
    (forall depth s e, scan_once lim fuel depth s = Failed e ->
       e = JSONDecodeError \/ e = RecursionError \/ e = ValueError)
    /\ (forall depth acc s e, parse_array lim fuel depth acc s = Failed e ->
       e = JSONDecodeError \/ e = RecursionError \/ e = ValueError)
    /\ (forall depth acc s e, parse_object lim fuel depth acc s = Failed e ->
       e = JSONDecodeError \/ e = RecursionError \/ e = ValueError).
Proof.
  induction fuel as [|f (IHv & IHa & IHo)].
  - repeat split; intros; discriminate.
  - repeat apply conj.
    + intros depth s e. cbn [scan_once].
      destruct (head_is 34 s).
      { destruct (scanstring (tl s)) as [[v rest]|]; [discriminate|].
        intros [= <-]. now left. }
      destruct (head_is 123 s).
      { destruct depth as [|d]; [intros [= <-]; right; now left|].
        cbv zeta. destruct (head_is 125 _); [discriminate|]. apply IHo. }
      destruct (head_is 91 s).
      { destruct depth as [|d]; [intros [= <-]; right; now left|].
        cbv zeta. destruct (head_is 93 _); [discriminate|]. apply IHa. }
      repeat match goal with
             | |- (if startswith s ?p then _ else _) = _ -> _ =>
                 destruct (startswith s p); [discriminate|]
             end.
      unfold scan_number. cbv zeta.
      destruct (int_part _); [intros [= <-]; now left|].
      destruct (frac_part _);
        [destruct (exp_part _); [destruct (too_many_digits _ _)|]|];
        try discriminate.
      intros [= <-]. right; now right.
    + intros depth acc s e. cbn [parse_array].
      destruct (scan_once lim f depth s) as [v rest|e'|] eqn:Ev;
        [|intros [= <-]; now apply IHv in Ev|discriminate].
      cbv zeta. destruct (head_is 93 _); [discriminate|].
      destruct (head_is 44 _); [apply IHa|].
      intros [= <-]. now left.
    + intros depth acc s e. cbn [parse_object].
      destruct (head_is 34 s); [|intros [= <-]; now left].
      destruct (scanstring (tl s)) as [[key r1]|]; [|intros [= <-]; now left].
      cbv zeta.
      destruct (head_is 58 _); [|intros [= <-]; now left].
      destruct (scan_once lim f depth _) as [v rest|e'|] eqn:Ev;
        [|intros [= <-]; now apply IHv in Ev|discriminate].
      destruct (head_is 125 _); [discriminate|].
      destruct (head_is 44 _); [apply IHo|].
      intros [= <-]. now left.
Qed.

(** [loads] returns a value or raises one of three exceptions, of which
    the parser of the agent catches the first only. *)
Lemma loads_cases lim (s : str) :
  (exists v, loads lim s = Ok v)
  \/ loads lim s = Raise JSONDecodeError
  \/ loads lim s = Raise RecursionError
  \/ loads lim s = Raise ValueError.
Proof.
  unfold loads. destruct (head_is 65279 s); [right; now left|].
  pose proof (decode_fuel lim s) as Hf.
  unfold decode in *. cbv zeta in *.
  destruct (scan_raises lim (2 * List.length (skip_ws s) + 1)) as (Hv & _ & _).
  specialize (Hv (max_depth lim) (skip_ws s)).
  destruct (scan_once _ _ _ _) as [v rest|e|]; [| |congruence].
  - destruct (skip_ws rest); [left; now exists v | right; now left].
  - right. destruct (Hv e eq_refl) as [-> | [-> | ->]]; auto.
Qed.

End JsonFacts.

Section LimitFacts.
Import Json.
Variable lim : Json.limits.

Lemma skip_ws_fixed (c : N) (s : str) :
  is_ws c = false -> skip_ws (c :: s) = c :: s.
Proof. intros H. cbn [skip_ws]. now rewrite H. Qed.

(** Arrays opened one inside the other, more of them than the interpreter
    allows: the decoder raises [RecursionError] at the first one too
    many, before it finds that none is closed. *)
Lemma scan_once_nested :
  forall depth k fuel,
    depth < k -> 2 * k + 1 <= fuel ->
    scan_once lim fuel depth (repeat 91%N k) = Failed RecursionError.
Proof.
  induction depth as [|d IH]; intros k fuel Hk Hf;
    (destruct k as [|k]; [lia|]); (destruct fuel as [|f]; [lia|]);
    cbn [repeat scan_once head_is];
    change (91 =? 34)%N with false; change (91 =? 123)%N with false;
    change (91 =? 91)%N with true; cbv iota; [reflexivity|].
  cbv zeta. cbn [tl].
  destruct k as [|k]; [lia|]. cbn [repeat].
  rewrite skip_ws_fixed by reflexivity. cbn [head_is].
  change (91 =? 93)%N with false. cbv iota.
  destruct f as [|f]; [lia|]. cbn [parse_array].
  change (91%N :: repeat 91%N k) with (repeat 91%N (S k)).
  rewrite IH by lia. reflexivity.
Qed.

Lemma loads_nested (n : nat) :
  max_depth lim < n -> loads lim (repeat 91%N n) = Raise RecursionError.
Proof.
  intros Hn. destruct n as [|n]; [lia|].
  unfold loads, decode. cbn [repeat head_is].
  change (91 =? 65279)%N with false. cbv iota zeta.
  rewrite skip_ws_fixed by reflexivity.
  change (91%N :: repeat 91%N n) with (repeat 91%N (S n)).
  rewrite scan_once_nested; [reflexivity | exact Hn |].
  rewrite repeat_length. lia.
Qed.

Lemma digits_ones (n : nat) : digits (repeat 49%N n) = repeat 49%N n.
Proof. induction n as [|n IH]; [reflexivity|]. cbn. now rewrite IH. Qed.

Lemma skipn_all_repeat {A} (x : A) (n : nat) : skipn n (repeat x n) = [].
Proof. induction n; [reflexivity | assumption]. Qed.

(** An integer literal of ones: [int] converts it unless it is too long. *)
Lemma loads_ones (n : nat) :
  0 < n ->
  loads lim (repeat 49%N n)
  = if too_many_digits lim (repeat 49%N n) then Raise ValueError
    else Ok (VInt (int_of_digits (repeat 49%N n))).
Proof.
  intros Hn. destruct n as [|n]; [lia|].
  unfold loads, decode. cbn [repeat head_is].
  change (49 =? 65279)%N with false. cbv iota zeta.
  rewrite skip_ws_fixed by reflexivity.
  cbn [List.length Nat.mul Nat.add scan_once head_is].
  change (49 =? 34)%N with false. change (49 =? 123)%N with false.
  change (49 =? 91)%N with false. cbv iota.
  cbn [startswith py list_ascii_of_string List.map].
  repeat match goal with
         | |- context [N.eqb (N_of_ascii ?a) 49] =>
             change (N.eqb (N_of_ascii a) 49) with false
         end.
  cbn [andb]. cbv iota.
  unfold scan_number. cbn [head_is]. change (49 =? 45)%N with false.
  cbv iota zeta. cbn [List.length skipn int_part].
  change (49 =? 48)%N with false. change (is_digit 49) with true. cbv iota.
  change (49%N :: repeat 49%N n) with (repeat 49%N (S n)).
  rewrite digits_ones. cbn [repeat]. 
  change (49%N :: repeat 49%N n) with (repeat 49%N (S n)).
  rewrite repeat_length, skipn_all_repeat.
  cbn [frac_part head_is exp_part List.length skipn].
  destruct (too_many_digits lim (repeat 49%N (S n))); reflexivity.
Qed.

End LimitFacts.

Section ParserFacts.
Variable lim : Json.limits.

#[local] Abbreviation parse_line := (parse_line lim).
#[local] Abbreviation scan_lines := (scan_lines lim).
#[local] Abbreviation _parse_action := (_parse_action lim).
#[local] Abbreviation input_of := (input_of lim).
#[local] Abbreviation decodes := (decodes lim).

Lemma input_line_not_action (line : str) :
  is_input_line line = true -> is_action_line line = false.
Proof.
  unfold is_input_line, is_action_line. intros H.
  apply startswith_app in H. rewrite H.
  reflexivity.
Qed.

Lemma parse_line_action line a i :
  is_action_line line = true ->
  parse_line line (a, i) = Ok (Some (action_of line), i).
Proof. unfold ReActAgent.parse_line, is_action_line. now intros ->. Qed.

(** On an [Action Input:] line the parser does what [input_of] does, and
    lets through what [input_of] raises. *)
Lemma parse_line_input line a i :
  is_input_line line = true ->
  parse_line line (a, i)
  = match input_of line with
    | Ok v => Ok (a, v)
    | Raise e => Raise e
    end.
Proof.
  intros H. unfold ReActAgent.parse_line.
  pose proof (input_line_not_action _ H) as Ha.
  unfold is_action_line in Ha. rewrite Ha.
  unfold is_input_line in H. rewrite H. unfold ReActAgent.input_of, input_text. cbv zeta.
  destruct (loads lim _) as [v|[]]; reflexivity.
Qed.

Lemma parse_line_other line acc :
  is_action_line line = false -> is_input_line line = false ->
  parse_line line acc = Ok acc.
Proof.
  unfold ReActAgent.parse_line, is_action_line, is_input_line. intros -> ->.
  now destruct acc.
Qed.

(** What [input_of] raises is what [json.loads] raises besides
    [JSONDecodeError]. *)
Lemma input_of_raises line e :
  input_of line = Raise e -> e = RecursionError \/ e = ValueError.
Proof.
  unfold ReActAgent.input_of, input_text. cbv zeta.
  destruct (loads_cases lim (strip (replace line "Action Input:" "")))
    as [[v ->] | [-> | [-> | ->]]]; try discriminate; intros [= <-]; auto.
Qed.

(** One line: the parser gets past it exactly when it decodes. *)
Lemma parse_line_decodes line acc :
  decodes line <-> exists acc', parse_line line acc = Ok acc'.
Proof.
  destruct acc as [a i]. unfold ReActAgent.decodes.
  destruct (is_action_line line) eqn:Ea.
  { rewrite (parse_line_action _ _ _ Ea). split; [eauto|].
    intros _ Hi. apply input_line_not_action in Hi. congruence. }
  destruct (is_input_line line) eqn:Ei.
  - rewrite (parse_line_input _ _ _ Ei).
    destruct (input_of line) as [v|e]; split.
    + eauto.
    + intros _ _. now exists v.
    + intros H. destruct (H eq_refl) as [v Hv]. discriminate.
    + intros [acc' H]. discriminate.
  - rewrite (parse_line_other _ _ Ea Ei). split; [eauto | discriminate].
Qed.

Lemma scan_lines_total lines :
  Forall decodes lines -> forall acc, exists r, scan_lines lines acc = Ok r.
Proof.
  induction 1 as [|line rest Hl _ IH]; intros acc; cbn [ReActAgent.scan_lines].
  - now exists acc.
  - destruct (proj1 (parse_line_decodes line acc) Hl) as [acc' ->]. apply IH.
Qed.

Lemma scan_lines_decodes lines :
  forall acc r, scan_lines lines acc = Ok r -> Forall decodes lines.
Proof.
  induction lines as [|line rest IH]; intros acc r;
    cbn [ReActAgent.scan_lines]; [constructor|].
  destruct (ReActAgent.parse_line lim line acc) as [acc'|e] eqn:E;
    [|discriminate].
  intros H. constructor; [|now apply (IH acc' r)].
  apply (parse_line_decodes line acc). now exists acc'.
Qed.

(** The parser returns exactly when every [Action Input:] line decodes. *)
Lemma parses_iff (text : str) :
  parses lim text <-> Forall decodes (split (strip text) nl).
Proof.
  unfold parses, ReActAgent._parse_action. cbv zeta. split.
  - intros (name & input & H). now apply scan_lines_decodes in H.
  - intros H. destruct (scan_lines_total _ H (None, VNone)) as [[a i] E].
    now exists a, i.
Qed.

(** Without an [Action Input:] line there is nothing to decode. *)
Lemma parses_without_input_line (text : str) :
  Forall (fun l => is_input_line l = false) (split (strip text) nl) ->
  parses lim text.
Proof.
  intros H. apply parses_iff. eapply Forall_impl; [|exact H].
  cbv beta. unfold ReActAgent.decodes. intros line Hl Hi. congruence.
Qed.

Lemma scan_lines_app l1 l2 acc :
  scan_lines (l1 ++ l2) acc =
  match scan_lines l1 acc with
  | Ok acc' => scan_lines l2 acc'
  | Raise e => Raise e
  end.
Proof.
  revert acc; induction l1 as [|line l1 IH]; intros acc;
    cbn [ReActAgent.scan_lines app]; [reflexivity|].
  destruct (ReActAgent.parse_line lim line acc); [apply IH | reflexivity].
Qed.

(** Lines that are not [Action:] lines leave the action untouched. *)
Lemma scan_lines_keep_action lines :
  Forall (fun l => is_action_line l = false) lines ->
  forall a i a' i', scan_lines lines (a, i) = Ok (a', i') -> a' = a.
Proof.
  induction 1 as [|line rest Hl _ IH]; intros a i a' i';
    cbn [ReActAgent.scan_lines].
  - now intros [= <- _].
  - destruct (is_input_line line) eqn:Ei.
    + rewrite (parse_line_input _ _ _ Ei).
      destruct (input_of line) as [v|e]; [apply IH | discriminate].
    + rewrite (parse_line_other _ _ Hl Ei). apply IH.
Qed.


End ParserFacts.

Section LoopFacts.
Context {World : Type}.
Variable lim : Json.limits.
Variable completion : str -> str -> list message -> World -> str * World.

#[local] Abbreviation frame := (ReActAgent.frame World).
#[local] Abbreviation _parse_action := (_parse_action lim).
#[local] Abbreviation requests_missing_tool := (requests_missing_tool lim).
#[local] Abbreviation iteration := (iteration lim completion).
#[local] Abbreviation loop := (loop lim completion).
#[local] Abbreviation run := (run lim completion).

Lemma split1_second (s sep : str) :
  contains sep s = true ->
  exists before after,
    nth_error (split1 s sep) 1 = Some after
    /\ s = before ++ sep ++ after
    /\ forall i, i < List.length before -> startswith (skipn i s) sep = false.
Proof.
  intros H. destruct (split1_from_first sep s [] H) as (b & a & E & Hs & Hf).
  exists b, a. unfold split1. rewrite E. now repeat split.
Qed.

Lemma iteration_frame (st : frame) :
  self (snd (iteration st)) = self st
  /\ calls (snd (iteration st)) = S (calls st)
  /\ (fst (iteration st) = Next -> steps (snd (iteration st)) = (steps st + 1)%Z).
Proof.
  unfold ReActAgent.iteration.
  destruct (_call_llm _ _ _ _) as [response w1].
  destruct (contains _ _).
  { destruct (nth_error _ _); repeat split; discriminate. }
  destruct (_parse_action response) as [[[[|c n]|] i]|e];
    try (repeat split; discriminate).
  destruct (dict_get _ _) as [tool|]; [|now repeat split].
  destruct (Tool.call_execute _ _ _) as [[obs w2]|e];
    repeat split; discriminate.
Qed.

Lemma loop_runs (fuel : nat) :
  forall st : frame,
    (max_iterations (self st) - steps st <= Z.of_nat fuel)%Z ->
    exists r st',
      loop fuel st = Some (r, st')
      /\ self st' = self st
      /\ calls st <= calls st'
      /\ (Z.of_nat (calls st')
          <= Z.of_nat (calls st)
             + Z.max 0 (max_iterations (self st) - steps st))%Z.
Proof.
  induction fuel as [|fuel IH]; intros st Hfuel; cbn [ReActAgent.loop].
  - destruct (Z.ltb_spec (steps st) (max_iterations (self st))); [lia|].
    exists (Ok exhausted), st. repeat split; lia.
  - destruct (Z.ltb_spec (steps st) (max_iterations (self st))) as [Hlt|Hge].
    2:{ exists (Ok exhausted), st. repeat split; lia. }
    destruct (iteration_frame st) as (Hself & Hcalls & Hsteps).
    destruct (iteration st) as [[answer|e|] st1]; simpl in *.
    + exists (Ok answer), st1. repeat split; try assumption; lia.
    + exists (Raise e), st1. repeat split; try assumption; lia.
    + specialize (Hsteps eq_refl).
      destruct (IH st1) as (r & st' & E & Hs & Hc1 & Hc2).
      { rewrite Hself, Hsteps. lia. }
      exists r, st'. rewrite E. repeat split; try congruence; try lia.
      rewrite Hself, Hsteps, Hcalls in *. lia.
Qed.

Lemma run_returns (agent : t World) (q : str) (w : World) :
  exists r st,
    run agent q w = Some (r, st)
    /\ self st = agent
    /\ (Z.of_nat (calls st) <= Z.max 0 (max_iterations agent))%Z.
Proof.
  unfold ReActAgent.run.
  match goal with |- context [ReActAgent.loop _ _ ?f ?s] =>
    destruct (loop_runs f s) as (r & st' & E & Hs & _ & Hc) end.
  { simpl. lia. }
  exists r, st'. simpl in *. rewrite Z.sub_0_r in Hc. now repeat split.
Qed.




Lemma loop_unfold (fuel : nat) (st : frame) :
  (steps st < max_iterations (self st))%Z ->
  loop (S fuel) st =
  match iteration st with
  | (Return answer, st') => Some (Ok answer, st')
  | (Throw e, st') => Some (Raise e, st')
  | (Next, st') => loop fuel st'
  end.
Proof.
  intros H. cbn [ReActAgent.loop].
  now destruct (Z.ltb_spec (steps st) (max_iterations (self st))); [|lia].
Qed.

Lemma iteration_missing_tool (st : frame) response w1 name input :
  _call_llm completion (self st) (messages st) (world st) = (response, w1) ->
  contains "Final Answer:" response = false ->
  _parse_action response = Ok (Some name, input) ->
  name <> [] ->
  dict_get (tools (self st)) name = None ->
  iteration st
  = (Next, observed st response ("Tool '" ++ name ++ "' not found.") w1).
Proof.
  intros Hc Hf Hp Hn Hg. unfold ReActAgent.iteration.
  rewrite Hc, Hf, Hp. destruct name as [|c n]; [congruence|].
  rewrite Hg. unfold observed. rewrite <- !app_assoc. reflexivity.
Qed.

Lemma loop_missing_tool (fuel : nat) :
  forall st : frame,
    (forall msgs w,
        requests_missing_tool (self st)
          (fst (_call_llm completion (self st) msgs w))) ->
    (0 <= max_iterations (self st) - steps st <= Z.of_nat fuel)%Z ->
    exists st',
      loop fuel st = Some (Ok exhausted, st')
      /\ Z.of_nat (calls st')
         = (Z.of_nat (calls st) + (max_iterations (self st) - steps st))%Z.
Proof.
  induction fuel as [|fuel IH]; intros st Hstub Hfuel.
  - cbn [ReActAgent.loop].
    destruct (Z.ltb_spec (steps st) (max_iterations (self st))); [lia|].
    exists st. split; [reflexivity | lia].
  - destruct (Z.ltb_spec (steps st) (max_iterations (self st))) as [Hlt|Hge].
    2:{ cbn [ReActAgent.loop].
        destruct (Z.ltb_spec (steps st) (max_iterations (self st))); [lia|].
        exists st. split; [reflexivity | lia]. }
    rewrite (loop_unfold _ _ Hlt).
    destruct (_call_llm completion (self st) (messages st) (world st))
      as [response w1] eqn:Hc.
    pose proof (Hstub (messages st) (world st)) as Hreq.
    rewrite Hc in Hreq. destruct Hreq as (Hf & name & input & Hp & Hn & Hg).
    rewrite (iteration_missing_tool st _ _ _ _ Hc Hf Hp Hn Hg).
    destruct (IH (observed st response ("Tool '" ++ name ++ "' not found.") w1))
      as (st' & E & Hcalls).
    + exact Hstub.
    + unfold observed; cbn [calls steps self]. lia.
    + exists st'. split; [exact E|]. rewrite Hcalls.
      unfold observed; cbn [calls steps self]. lia.
Qed.

(** C3: a reply that contains [Final Answer:] ends the call at once: [run]
    returns what follows the first occurrence of the marker with the white
    space at both ends cut off, and nothing else cut off, and never looks
    at the [Action:] lines of that reply. *)
Theorem C3_final_answer_short_circuits
    (fuel : nat) (st : frame) (response : str) (w1 : World) :
  (steps st < max_iterations (self st))%Z ->
  _call_llm completion (self st) (messages st) (world st) = (response, w1) ->
  contains "Final Answer:" response = true ->
  exists before lead answer trail,
    response = before ++ "Final Answer:" ++ lead ++ answer ++ trail
    /\ (forall i, i < List.length before ->
                  startswith (skipn i response) "Final Answer:" = false)
    /\ all_space lead /\ all_space trail
    /\ no_lead answer /\ no_lead (rev answer)
    /\ loop (S fuel) st = Some (Ok answer, replied st response w1).
Proof.
  intros Hlt Hc Hf.
  destruct (split1_second response "Final Answer:" Hf)
    as (before & after & Hnth & Hs & Hfirst).
  destruct (strip_cut after) as (lead & trail & Ha & Hl & Ht & Hn & Hr).
  exists before, lead, (strip after), trail.
  repeat apply conj; try assumption.
  - now rewrite <- Ha.
  - rewrite (loop_unfold _ _ Hlt). unfold ReActAgent.iteration.
    rewrite Hc, Hf, Hnth. reflexivity.
Qed.

(** C6: asking for a tool that is not in the registry raises nothing: the
    observation [Tool '<name>' not found.] is appended to the transcript,
    one unit of the iteration budget is spent and the loop goes on. *)
Theorem C6_unknown_tool_is_an_observation
    (fuel : nat) (st : frame) (response : str) (w1 : World)
    (name : str) (input : value) :
  (steps st < max_iterations (self st))%Z ->
  _call_llm completion (self st) (messages st) (world st) = (response, w1) ->
  contains "Final Answer:" response = false ->
  _parse_action response = Ok (Some name, input) ->
  name <> [] ->
  dict_get (tools (self st)) name = None ->
  let st' := observed st response ("Tool '" ++ name ++ "' not found.") w1 in
  iteration st = (Next, st')
  /\ loop (S fuel) st = loop fuel st'
  /\ steps st' = (steps st + 1)%Z.
Proof.
  intros Hlt Hc Hf Hp Hn Hg st'.
  pose proof (iteration_missing_tool st _ _ _ _ Hc Hf Hp Hn Hg) as Hit.
  repeat split; [exact Hit|].
  rewrite (loop_unfold _ _ Hlt), Hit. reflexivity.
Qed.


(** X25: a reply with neither the [Final Answer:] marker nor a recognised
    [Action:] line, on which the parser returns, parses to the name [None],
    and [run] returns that reply unchanged. *)
Theorem no_action_reply_is_returned
    (fuel : nat) (st : frame) (response : str) (w1 : World) :
  (steps st < max_iterations (self st))%Z ->
  _call_llm completion (self st) (messages st) (world st) = (response, w1) ->
  contains "Final Answer:" response = false ->
  Forall (fun line => is_action_line line = false)
         (split (strip response) nl) ->
  parses lim response ->
  (exists input, _parse_action response = Ok (None, input))
  /\ loop (S fuel) st = Some (Ok response, replied st response w1).
Proof.
  intros Hlt Hc Hf Hlines (name & input & Hp).
  assert (name = None) as ->.
  { unfold ReActAgent._parse_action in Hp. cbv zeta in Hp.
    exact (scan_lines_keep_action lim _ Hlines _ _ _ _ Hp). }
  split; [now exists input|].
  rewrite (loop_unfold _ _ Hlt). unfold ReActAgent.iteration.
  rewrite Hc, Hf, Hp. reflexivity.
Qed.


End LoopFacts.

Section MeterFacts.
Context {World : Type}.
Variable lim : Json.limits.
Variable completion : str -> str -> list message -> World -> str * World.

Lemma dict_get_with_meter (d : list (str * Tool.t World)) (name : str) :
  dict_get (List.map (fun '(k, tool) => (k, tool_with_meter tool)) d) name
  = option_map tool_with_meter (dict_get d name).
Proof.
  induction d as [|[k tool] d IH]; simpl; [reflexivity|].
  destruct (str_eqb k name); [reflexivity | exact IH].
Qed.

Lemma call_execute_with_meter (tool : Tool.t World) (input : value)
    (w : World) (n : nat) :
  Tool.call_execute (tool_with_meter tool) input (w, n)
  = match Tool.call_execute tool input w with
    | Ok (observation, w') => Ok (observation, (w', n))
    | Raise e => Raise e
    end.
Proof.
  unfold Tool.call_execute. destruct input; try reflexivity.
  destruct (dict_has items "self"); [reflexivity|].
  unfold Tool.execute, tool_with_meter, beside_meter. cbn.
  destruct (Tool.function tool items w) as [[s|msg] w']; reflexivity.
Qed.

Lemma descriptions_with_meter (agent : t World) :
  _get_tool_descriptions (with_meter agent) = _get_tool_descriptions agent.
Proof.
  unfold _get_tool_descriptions, with_meter. cbn [tools]. f_equal.
  rewrite map_map. apply map_ext. now intros [k tool].
Qed.

(** One pass with the meter is the pass without it, and the meter goes up
    by one: the pass sends one request. *)
Lemma iteration_with_meter (st : frame World) :
  iteration lim (metered completion) (frame_with_meter st)
  = (fst (iteration lim completion st),
     frame_with_meter (snd (iteration lim completion st))).
Proof.
  unfold iteration, _call_llm, metered, frame_with_meter.
  cbn [self world messages steps calls api_key model with_meter fst snd tools].
  destruct (completion _ _ _ _) as [response w1].
  destruct (contains _ _).
  { destruct (nth_error _ _); reflexivity. }
  destruct (_parse_action lim response) as [[[[|c n]|] i]|e];
    try reflexivity.
  rewrite dict_get_with_meter.
  destruct (dict_get (tools (self st)) (c :: n)) as [tool|];
    cbn [option_map]; [|reflexivity].
  rewrite call_execute_with_meter.
  destruct (Tool.call_execute tool _ w1) as [[obs w2]|e]; reflexivity.
Qed.

Lemma loop_with_meter (fuel : nat) :
  forall st : frame World,
    loop lim (metered completion) fuel (frame_with_meter st)
    = match loop lim completion fuel st with
      | Some (r, st') => Some (r, frame_with_meter st')
      | None => None
      end.
Proof.
  induction fuel as [|fuel IH]; intros st; cbn [loop];
    change (steps (frame_with_meter st)) with (steps st);
    change (max_iterations (self (frame_with_meter st)))
      with (max_iterations (self st));
    destruct (steps st <? max_iterations (self st))%Z; try reflexivity.
  rewrite iteration_with_meter.
  destruct (iteration lim completion st) as [[answer|e|] st1];
    cbn [fst snd]; try reflexivity.
  apply IH.
Qed.

(** A call with the meter at zero is the call without the meter, and the
    meter ends at the count of the frame. *)
Lemma run_with_meter (agent : t World) (q : str) (w : World) :
  run lim (metered completion) (with_meter agent) q (w, 0)
  = match run lim completion agent q w with
    | Some (r, st) => Some (r, frame_with_meter st)
    | None => None
    end.
Proof.
  unfold run. rewrite <- loop_with_meter. f_equal.
  unfold start, frame_with_meter, system_prompt.
  cbn [self world messages steps calls max_iterations with_meter].
  now rewrite descriptions_with_meter.
Qed.

(** C1: [run] sends at most [max_iterations + 1] requests to the
    completion endpoint before it returns, whatever the model replies;
    against a model that never emits [Final Answer:] and always asks for a
    tool that is not registered it returns the budget-exhaustion message
    after exactly [max_iterations] requests.  The requests are counted by a
    meter on the endpoint, which does not change what [run] yields. *)
Theorem C1_run_call_budget (agent : t World) (q : str) (w : World) :
  (0 <= max_iterations agent)%Z ->
  (exists r st0 st,
      run lim completion agent q w = Some (r, st0)
      /\ run lim (metered completion) (with_meter agent) q (w, 0)
         = Some (r, st)
      /\ fst (world st) = world st0
      /\ (Z.of_nat (snd (world st)) <= max_iterations agent + 1)%Z)
  /\ ((forall msgs w',
          requests_missing_tool lim agent
            (fst (_call_llm completion agent msgs w'))) ->
      exists st,
        run lim (metered completion) (with_meter agent) q (w, 0)
        = Some (Ok exhausted, st)
        /\ Z.of_nat (snd (world st)) = max_iterations agent).
Proof.
  intros Hmax. rewrite run_with_meter. split.
  - destruct (run_returns lim completion agent q w) as (r & st & E & _ & Hc).
    exists r, st, (frame_with_meter st). rewrite E.
    repeat split. cbn [frame_with_meter world snd]. lia.
  - intros Hstub. unfold run.
    match goal with |- context [loop _ _ ?f ?s] =>
      destruct (loop_missing_tool lim completion f s) as (st' & E & Hc) end.
    + exact Hstub.
    + unfold start; cbn [calls steps self]. lia.
    + exists (frame_with_meter st'). rewrite E. split; [reflexivity|].
      unfold start in Hc; cbn [calls steps self] in Hc.
      cbn [frame_with_meter world snd]. lia.
Qed.

End MeterFacts.

Section ParserClaims.
Variable lim : Json.limits.

#[local] Abbreviation scan_lines := (scan_lines lim).
#[local] Abbreviation _parse_action := (_parse_action lim).
#[local] Abbreviation input_of := (input_of lim).




End ParserClaims.

Section ParserCounterexample.


End ParserCounterexample.

Section AgentClaims.
Context {World : Type}.
Variable lim : Json.limits.
Variables calculator get_current_time get_weather search_arxiv
  : Tool.capability World.
Variable completion : str -> str -> list message -> World -> str * World.

#[local] Abbreviation new_agent :=
  (__init__ calculator get_current_time get_weather search_arxiv).

Lemma new_agent_fields (key model : str) :
  conversation_history (new_agent key model) = []
  /\ max_iterations (new_agent key model) = 10%Z
  /\ List.map fst (tools (new_agent key model))
     = [py "calculator"; py "get_current_time"; py "get_weather";
        py "search_arxiv"].
Proof. repeat split. Qed.


(** C2: the specification has [run] always return a string.  On a reply
    that names a registered tool and gives it an input that is valid JSON
    but not an object, the call of [execute] raises [TypeError] in [run]
    itself, outside every [try], and the exception reaches the caller
    after one completion call.  The reply is decoded by every interpreter
    that lets the decoder enter one array. *)
Theorem C2_run_raises_on_non_object_input (q : str) (w : World) :
  0 < max_depth lim ->
  let model := fun (_ _ : str) (_ : list message) (w : World) =>
                 (Fixture.array_input, w) in
  exists st,
    run lim model (new_agent "key" default_model) q w
    = Some (Raise TypeError, st)
    /\ calls st = 1.
Proof.
  generalize lim. intros [[|depth] digits] Hd model; [inversion Hd|].
  exists (replied (start (new_agent "key" default_model) q w)
                  Fixture.array_input w).
  split; [vm_compute; reflexivity | reflexivity].
Qed.

End AgentClaims.

Section ParserExamples.

(** Text that is not JSON at all is wrapped under the key [input]. *)
Lemma input_of_invalid_json lim (line : str) :
  Json.loads lim (strip (replace line "Action Input:" ""))
  = Raise JSONDecodeError ->
  input_of lim line
  = Ok (VDict [(py "input", VStr (strip (replace line "Action Input:" "")))]).
Proof. unfold input_of, input_text. cbv zeta. now intros ->. Qed.

Example parse_action_not_json :
  _parse_action Json.cpython ("Action: foo" ++ nl ++ "Action Input: not-json")
  = Ok (Some (py "foo"), VDict [(py "input", VStr "not-json")]).
Proof. vm_compute. reflexivity. Qed.

Example parse_action_object :
  _parse_action Json.cpython
    ("Action: foo" ++ nl ++ "Action Input: {" ++ dq ++ "x" ++ dq ++ ": 1}")
  = Ok (Some (py "foo"), VDict [(py "x", VInt 1)]).
Proof. vm_compute. reflexivity. Qed.

(** C4: the specification has every input that does not decode as a JSON
    object come back as the mapping with the single key [input].  An input
    that is valid JSON of another kind, here an array, comes back as
    decoded: a list, not a mapping. *)
Theorem C4_parser_keeps_non_object_json (lim : Json.limits) :
  0 < max_depth lim ->
  _parse_action lim Fixture.array_input
  = Ok (Some (py "calculator"), VList [VInt 1])
  /\ input_of lim "Action Input: [1]" = Ok (VList [VInt 1])
  /\ input_of lim "Action Input: [1]"
     <> Ok (VDict [(py "input", VStr "[1]")]).
Proof.
  destruct lim as [[|depth] digits]; intros Hd; [inversion Hd|].
  repeat split; [vm_compute; reflexivity .. | vm_compute; discriminate].
Qed.

End ParserExamples.

(* ================================================================== *)
(** * The statements at the closed instance *)

Section Witnesses.
Import Fixture.

#[local] Abbreviation entry := (start agent "2+2?" tt).
#[local] Abbreviation _parse_action := (_parse_action Json.cpython).
#[local] Abbreviation iteration := (iteration Json.cpython).
#[local] Abbreviation loop := (loop Json.cpython).
#[local] Abbreviation run := (run Json.cpython).

Lemma C1_run_call_budget_witness :
  exists st,
    run (metered (always missing_tool)) (with_meter agent) "2+2?" (tt, 0)
    = Some (Ok exhausted, st)
    /\ Z.of_nat (snd (world st)) = 10%Z.
Proof.
  refine (proj2 (C1_run_call_budget Json.cpython (always missing_tool) agent
                   "2+2?" tt _) _).
  - vm_compute. discriminate.
  - intros msgs w'. split; [reflexivity|].
    exists (py "nope"), VNone. repeat split. discriminate.
Defined.

Lemma C2_run_raises_on_non_object_input_witness :
  exists st,
    run (always array_input) agent "2+2?" tt = Some (Raise TypeError, st)
    /\ calls st = 1.
Proof.
  apply (C2_run_raises_on_non_object_input Json.cpython failing
           (constant "12:00") (constant "sunny") (constant "none") "2+2?" tt).
  cbn [max_depth Json.cpython]. apply Nat.lt_0_succ.
Defined.

Lemma C3_final_answer_short_circuits_witness :
  exists before lead trail,
    both_markers = before ++ "Final Answer:" ++ lead ++ "42" ++ trail
    /\ (forall i, i < List.length before ->
                  startswith (skipn i both_markers) "Final Answer:" = false)
    /\ all_space lead /\ all_space trail
    /\ loop (always both_markers) 10 entry
       = Some (Ok (py "42"), replied entry both_markers tt).
Proof.
  destruct (C3_final_answer_short_circuits Json.cpython (always both_markers)
              9 entry both_markers tt eq_refl eq_refl eq_refl)
    as (before & lead & answer & trail & Hs & Hfirst & Hl & Ht & _ & _ & E).
  assert (Ha : answer = py "42").
  { apply (f_equal (fun x => match x with
                             | Some (Ok a, _) => a
                             | _ => []
                             end)) in E.
    vm_compute in E. symmetry. exact E. }
  subst answer. exists before, lead, trail. repeat split; assumption.
Defined.

Lemma C4_parser_keeps_non_object_json_witness :
  _parse_action array_input = Ok (Some (py "calculator"), VList [VInt 1])
  /\ input_of Json.cpython "Action Input: [1]" = Ok (VList [VInt 1])
  /\ input_of Json.cpython "Action Input: [1]"
     <> Ok (VDict [(py "input", VStr "[1]")]).
Proof.
  apply (C4_parser_keeps_non_object_json Json.cpython).
  cbn [max_depth Json.cpython]. apply Nat.lt_0_succ.
Defined.


Lemma C6_unknown_tool_is_an_observation_witness :
  let st' := observed entry missing_tool "Tool 'nope' not found." tt in
  iteration (always missing_tool) entry = (Next, st')
  /\ loop (always missing_tool) 10 entry = loop (always missing_tool) 9 st'
  /\ steps st' = 1%Z.
Proof.
  apply (C6_unknown_tool_is_an_observation Json.cpython (always missing_tool)
           9 entry missing_tool tt "nope" VNone);
    try reflexivity.
  discriminate.
Defined.


Lemma no_action_reply_is_returned_witness :
  (exists input, _parse_action plain = Ok (None, input))
  /\ loop (always plain) 10 entry = Some (Ok plain, replied entry plain tt).
Proof.
  apply (no_action_reply_is_returned Json.cpython (always plain) 9 entry
           plain tt);
    try reflexivity.
  - repeat constructor.
  - exists None, VNone. reflexivity.
Defined.


End Witnesses.

(* ================================================================== *)
(** * Worked examples *)

Section Examples.

#[local] Abbreviation loads := (Json.loads Json.cpython).

Example strip_both_ends : strip "  a b	" = "a b".
Proof. reflexivity. Qed.

Example split_keeps_empty_pieces :
  split ("a" ++ nl ++ nl ++ "b") nl = [py "a"; py ""; py "b"].
Proof. reflexivity. Qed.

Example split1_cuts_once : split1 "a: b: c" ": " = [py "a"; py "b: c"].
Proof. reflexivity. Qed.

Example replace_every_occurrence :
  replace "Action: x Action:y" "Action:" "" = " x y".
Proof. reflexivity. Qed.

Example loads_array :
  loads "[1, -2.5e3, null, true , [ ] ]"
  = Ok (VList [VInt 1; VFloat "-2.5e3"; VNone; VBool true; VList []]).
Proof. vm_compute. reflexivity. Qed.

Example loads_object_last_key_wins :
  loads ("{" ++ dq ++ "a" ++ dq ++ ": 1, " ++ dq ++ "bA" ++ dq
         ++ " : [1,2], " ++ dq ++ "a" ++ dq ++ ":{}}")
  = Ok (VDict [(py "a", VDict []); (py "bA", VList [VInt 1; VInt 2])]).
Proof. vm_compute. reflexivity. Qed.

Example loads_rejects :
  loads "not-json" = Raise JSONDecodeError
  /\ loads "01" = Raise JSONDecodeError
  /\ loads "[1,]" = Raise JSONDecodeError
  /\ loads "1." = Raise JSONDecodeError
  /\ loads "" = Raise JSONDecodeError.
Proof. vm_compute. repeat split. Qed.

(** What the handler of the parser does not catch: a thousand arrays one
    inside the other, and an integer of 4301 digits.  A literal of as many
    digits with a fraction is a [float], and decoded. *)
Example loads_beyond_limits :
  loads (repeat 91%N 1001) = Raise RecursionError
  /\ loads (repeat 49%N 4301) = Raise ValueError
  /\ (exists v, loads (repeat 49%N 4300) = Ok (VInt v))
  /\ loads (repeat 49%N 4301 ++ ".5")
     = Ok (VFloat (repeat 49%N 4301 ++ ".5")).
Proof.
  repeat split; try (vm_compute; reflexivity).
  eexists. vm_compute. reflexivity.
Qed.

Example parse_action_beyond_limits :
  _parse_action Json.cpython ("Action Input: " ++ repeat 49%N 4301)
  = Raise ValueError
  /\ _parse_action Json.cpython ("Action Input: " ++ repeat 91%N 1001)
     = Raise RecursionError.
Proof. split; vm_compute; reflexivity. Qed.

Example end_to_end :
  let four : Tool.capability nat := fun _ w => (Tool.Returns "4", w) in
  let agent := __init__ four four four four "key" default_model in
  exists st,
    run Json.cpython Fixture.two_turns agent "2+2?" 0 = Some (Ok (py "4"), st)
    /\ calls st = 2
    /\ world st = 2
    /\ List.map content (skipn 2 (messages st))
       = [ "Action: calculator" ++ nl ++ "Action Input: {" ++ dq
           ++ "expression" ++ dq ++ ": " ++ dq ++ "2+2" ++ dq ++ "}";
           py "Observation: 4"; py "Final Answer: 4" ].
Proof.
  intros four agent.
  destruct (run Json.cpython Fixture.two_turns agent "2+2?" 0)
    as [[r st]|] eqn:E;
    vm_compute in E; [|discriminate E].
  injection E as <- <-. eexists. repeat split.
Qed.

End Examples.

(* ================================================================== *)
(** * Further properties of the parser, the loop and the registry *)

Section SplitReplaceFacts.

Lemma replace_from_In old skip s x :
  In x (replace_from old [] skip s) -> In x s.
Proof.
  revert skip; induction s as [|c r IH]; intros skip; cbn [replace_from];
    [easy|].
  destruct skip as [|k].
  - destruct (startswith (c :: r) old).
    + cbn [app]. intros H. right. eapply IH, H.
    + intros [->|H]; [now left | right; eapply IH, H].
  - intros H. right. eapply IH, H.
Qed.

Lemma replace_from_skip old new (a rest : str) :
  replace_from old new (List.length a) (a ++ rest) = replace_from old new 0 rest.
Proof.
  induction a as [|c a IH]; [reflexivity|].
  cbn [List.length app replace_from]. exact IH.
Qed.

(** Removing a marker that leads the string leaves the rest, itself
    cleared of the marker. *)
Lemma replace_leading (old rest : str) :
  old <> [] -> replace (old ++ rest) old [] = replace rest old [].
Proof.
  intros Hne. unfold replace. destruct old as [|c o]; [congruence|].
  pose proof (startswith_prefix (c :: o) rest) as Hp.
  cbn [app] in Hp. cbn [app replace_from]. rewrite Hp.
  cbn [app List.length Nat.sub].
  replace (List.length o - 0) with (List.length o) by lia.
  apply replace_from_skip.
Qed.

Lemma replace_absent (old new s : str) :
  contains old s = false -> replace s old new = s.
Proof.
  unfold replace. induction s as [|c r IH]; [reflexivity|].
  cbn [contains replace_from]. intros H.
  apply orb_false_iff in H as [H1 H2]. rewrite H1. f_equal. now apply IH.
Qed.

(** The pieces that [split] cuts at a one-character separator do not hold
    that character. *)
Lemma split_from_char (c : N) (s cur : str) :
  ~ In c cur ->
  Forall (fun piece => ~ In c piece) (split_from [c] 0 cur s).
Proof.
  revert cur; induction s as [|x r IH]; intros cur Hcur; cbn [split_from].
  - constructor; [|constructor]. now rewrite <- in_rev.
  - cbn [startswith]. destruct (N.eqb_spec c x) as [->|Hne]; cbn [andb].
    + constructor; [now rewrite <- in_rev|]. apply IH. easy.
    + apply IH. intros [E|H]; [congruence | easy].
Qed.

Lemma split_char (s : str) (c : N) :
  Forall (fun piece => ~ In c piece) (split s [c]).
Proof. apply split_from_char. easy. Qed.

Lemma split_from_nonempty sep (s : str) :
  forall skip cur, split_from sep skip cur s <> [].
Proof.
  induction s as [|x r IH]; intros skip cur; cbn [split_from]; [easy|].
  destruct skip; [|apply IH].
  destruct (startswith (x :: r) sep); [easy | apply IH].
Qed.

(** Nothing is lost: joining the pieces with the separator gives the
    string back. *)
Lemma split_from_char_join (c : N) (s cur : str) :
  join [c] (split_from [c] 0 cur s) = rev cur ++ s.
Proof.
  revert cur; induction s as [|x r IH]; intros cur; cbn [split_from].
  - cbn [join]. now rewrite app_nil_r.
  - cbn [startswith]. destruct (N.eqb_spec c x) as [->|Hne]; cbn [andb].
    + cbn [List.length Nat.sub]. 
      destruct (split_from [x] 0 [] r) as [|p ps] eqn:E.
      { now apply split_from_nonempty in E. }
      change (join [x] (rev cur :: p :: ps))
        with (rev cur ++ [x] ++ join [x] (p :: ps)).
      rewrite <- E, IH. reflexivity.
    + rewrite IH. cbn [rev]. now rewrite <- app_assoc.
Qed.

End SplitReplaceFacts.

Section ParserExtras.
Variable lim : Json.limits.

#[local] Abbreviation scan_lines := (scan_lines lim).
#[local] Abbreviation _parse_action := (_parse_action lim).
#[local] Abbreviation input_of := (input_of lim).

(** X1: white space around the reply does not change what the parser
    finds. *)
Theorem parse_action_ignores_outer_space (text : str) :
  _parse_action (strip text) = _parse_action text.
Proof. unfold ReActAgent._parse_action. now rewrite strip_idempotent. Qed.

(** X2: a recognised name is one trimmed line: it neither starts nor ends with
    white space and holds no line feed. *)
Theorem parsed_name_is_trimmed_line (text : str) (name : str) (input : value) :
  _parse_action text = Ok (Some name, input) ->
  strip name = name /\ ~ In 10%N name.
Proof.
  unfold ReActAgent._parse_action. cbv zeta.
  pose proof (split_char (strip text) 10%N) as Hlines.
  change [10%N] with nl in Hlines.
  generalize dependent (split (strip text) nl).
  intros lines Hlines.
  assert (Hgen : forall a i,
             (forall n, a = Some n -> strip n = n /\ ~ In 10%N n) ->
             scan_lines lines (a, i) = Ok (Some name, input) ->
             strip name = name /\ ~ In 10%N name).
  { induction Hlines as [|line rest Hline _ IH]; intros a i Ha;
      cbn [ReActAgent.scan_lines].
    - intros [= -> _]. now apply Ha.
    - destruct (is_action_line line) eqn:Ea.
      + rewrite (parse_line_action _ _ _ _ Ea). apply IH.
        intros n [= <-]. split; [apply strip_idempotent|].
        intros Hin. apply Hline. unfold action_of in Hin.
        apply strip_In in Hin. now apply replace_from_In in Hin.
      + destruct (is_input_line line) eqn:Ei.
        * rewrite (parse_line_input _ _ _ _ Ei).
          destruct (input_of line) as [v|e]; [now apply IH | discriminate].
        * rewrite (parse_line_other _ _ _ Ea Ei). now apply IH. }
  apply Hgen. discriminate.
Qed.

(** X3: what an [Action:] line yields is the rest of the line with every
    further occurrence of the marker deleted, trimmed; without such an
    occurrence it is the rest of the line, trimmed.  The same holds for
    the text that an [Action Input:] line hands to the decoder. *)
Theorem marker_remainder (rest : str) :
  action_of ("Action:" ++ rest) = strip (replace rest "Action:" "")
  /\ (contains "Action:" rest = false ->
      action_of ("Action:" ++ rest) = strip rest)
  /\ (contains "Action Input:" rest = false ->
      Json.loads lim (strip rest) = Raise JSONDecodeError ->
      input_of ("Action Input:" ++ rest)
      = Ok (VDict [(py "input", VStr (strip rest))])).
Proof.
  assert (Ha : action_of ("Action:" ++ rest) = strip (replace rest "Action:" "")).
  { unfold action_of. now rewrite replace_leading. }
  split; [exact Ha | split].
  - intros H. rewrite Ha. now rewrite (replace_absent _ _ _ H).
  - intros H Hl. unfold ReActAgent.input_of, input_text. cbv zeta.
    rewrite replace_leading by discriminate.
    rewrite (replace_absent _ _ _ H), Hl. reflexivity.
Qed.

End ParserExtras.

Section LoopExtras.
Context {World : Type}.
Variable lim : Json.limits.
Variable completion : str -> str -> list message -> World -> str * World.

#[local] Abbreviation frame := (ReActAgent.frame World).
#[local] Abbreviation _parse_action := (_parse_action lim).
#[local] Abbreviation iteration := (iteration lim completion).
#[local] Abbreviation loop := (loop lim completion).
#[local] Abbreviation run := (run lim completion).

(** What one pass does, by the way it ends: the reply is in the transcript
    in every case, and an observation after it when the pass is completed. *)
Lemma iteration_cases (st : frame) :
  let '(response, w1) :=
    _call_llm completion (self st) (messages st) (world st) in
  (exists answer, iteration st = (Return answer, replied st response w1))
  \/ (exists e, iteration st = (Throw e, replied st response w1))
  \/ (exists observation w2,
         iteration st = (Next, observed st response observation w2)).
Proof.
  unfold ReActAgent.iteration.
  destruct (_call_llm _ _ _ _) as [response w1].
  destruct (contains _ _) eqn:Hf.
  { destruct (split1_second _ _ Hf) as (b & a & -> & _).
    left. now eexists. }
  destruct (_parse_action response) as [[name input]|e];
    [|right; left; now exists e].
  destruct name as [[|c n]|]; try (left; now eexists).
  destruct (dict_get _ _) as [tool|] eqn:Hg.
  2:{ right; right. exists ("Tool '" ++ (c :: n) ++ "' not found."), w1.
      unfold observed. now rewrite <- !app_assoc. }
  destruct (Tool.call_execute _ _ _) as [[obs w2]|e] eqn:Hc.
  - right; right. exists obs, w2. unfold observed.
    now rewrite <- !app_assoc.
  - right; left. now exists e.
Qed.

Lemma turns_cons reply observation passes last_reply :
  turns ((reply, observation) :: passes) last_reply
  = [ {| role := "assistant"; content := reply |};
      {| role := "user"; content := "Observation: " ++ observation |} ]
    ++ turns passes last_reply.
Proof. reflexivity. Qed.

(** The whole course of the loop from a frame on: the messages it appends,
    the passes it completes, the completion calls it makes and the way it
    ends. *)
Lemma loop_course (fuel : nat) :
  forall (st st' : frame) (r : result str),
    loop fuel st = Some (r, st') ->
    exists passes last_reply,
      messages st' = messages st ++ turns passes last_reply
      /\ steps st' = (steps st + Z.of_nat (List.length passes))%Z
      /\ calls st'
         = calls st + List.length passes
           + match last_reply with Some _ => 1 | None => 0 end
      /\ self st' = self st
      /\ match last_reply with
         | None =>
             r = Ok exhausted
             /\ steps st' = Z.max (steps st) (max_iterations (self st))
         | Some reply =>
             (steps st' < max_iterations (self st))%Z
             /\ (exists msgs w,
                    reply = fst (_call_llm completion (self st) msgs w))
         end.
Proof.
  induction fuel as [|fuel IH]; intros st st' r; cbn [ReActAgent.loop];
    destruct (Z.ltb_spec (steps st) (max_iterations (self st))) as [Hlt|Hge];
    try discriminate;
    try (intros [= <- <-]; exists [], None; cbn [turns flat_map app List.length];
         rewrite app_nil_r; repeat split; lia).
  pose proof (iteration_cases st) as Hcases.
  destruct (_call_llm completion (self st) (messages st) (world st))
    as [response w1] eqn:Hcall.
  assert (Hfrom : exists msgs w,
             response = fst (_call_llm completion (self st) msgs w)).
  { exists (messages st), (world st). now rewrite Hcall. }
  destruct Hcases as [[answer ->] | [[e ->] | (obs & w2 & ->)]].
  - intros [= <- <-]. exists [], (Some response).
    cbn [turns flat_map app List.length replied messages steps calls self].
    repeat split; try lia; assumption.
  - intros [= <- <-]. exists [], (Some response).
    cbn [turns flat_map app List.length replied messages steps calls self].
    repeat split; try lia; assumption.
  - intros H. destruct (IH _ _ _ H) as (passes & last & Hm & Hs & Hc & Hself & Hend).
    exists ((response, obs) :: passes), last.
    unfold observed in *. cbn [messages steps calls self] in *.
    rewrite turns_cons. cbn [List.length].
    repeat split.
    + rewrite Hm. now rewrite <- !app_assoc.
    + lia.
    + lia.
    + exact Hself.
    + destruct last as [reply|].
      * destruct Hend as (H1 & H2). split; assumption.
      * destruct Hend as (H1 & H2). split; [exact H1 | lia].
Qed.

(** X6: the transcript of a call is the system prompt, the query, a reply
    and an observation for each completed pass, and then the reply that
    ended the call, unless the budget ran out.  The completed passes
    are counted by [steps], and there is one completion call per reply. *)
Theorem run_transcript_shape (agent : t World) (q : str) (w : World) :
  exists r st passes last_reply,
    run agent q w = Some (r, st)
    /\ messages st
       = [ {| role := "system"; content := system_prompt agent |};
           {| role := "user"; content := q |} ]
         ++ turns passes last_reply
    /\ steps st = Z.of_nat (List.length passes)
    /\ calls st
       = List.length passes
         + match last_reply with Some _ => 1 | None => 0 end
    /\ (last_reply = None ->
        r = Ok exhausted /\ steps st = Z.max 0 (max_iterations agent)).
Proof.
  destruct (run_returns lim completion agent q w) as (r & st & E & _ & _).
  pose proof E as E'. unfold ReActAgent.run in E'.
  destruct (loop_course _ _ _ _ E')
    as (passes & last_reply & Hm & Hs & Hc & _ & Hend).
  exists r, st, passes, last_reply.
  unfold start in Hm, Hs, Hc, Hend. cbn [messages steps calls self] in *.
  split; [exact E|]. split; [exact Hm|]. split; [lia|]. split; [lia|].
  intros ->. destruct Hend as [-> Hmax]. split; [reflexivity | exact Hmax].
Qed.

End LoopExtras.

Section ContainsFacts.

Lemma contains_prefix (p rest : str) : contains p (p ++ rest) = true.
Proof.
  destruct (p ++ rest) eqn:E; cbn [contains];
    rewrite <- E, startswith_prefix; reflexivity.
Qed.

Lemma contains_app_r (p a s : str) :
  contains p s = true -> contains p (a ++ s) = true.
Proof.
  intros H. induction a as [|c a IH]; [exact H|].
  cbn [app contains]. rewrite IH. apply orb_true_r.
Qed.

Lemma contains_middle (p a b : str) : contains p (a ++ p ++ b) = true.
Proof. apply contains_app_r, contains_prefix. Qed.

Lemma join_In (sep x : str) (parts : list str) :
  In x parts -> exists a b, join sep parts = a ++ x ++ b.
Proof.
  induction parts as [|p rest IH]; [easy|].
  intros [->|Hin].
  - destruct rest as [|p' rest'].
    + exists [], []. cbn [join app]. now rewrite app_nil_r.
    + exists [], (sep ++ join sep (p' :: rest')). reflexivity.
  - destruct (IH Hin) as (a & b & E).
    destruct rest as [|p' rest']; [easy|].
    exists (p ++ sep ++ a), b.
    change (join sep (p :: p' :: rest'))
      with (p ++ sep ++ join sep (p' :: rest')).
    rewrite E. now rewrite <- !app_assoc.
Qed.

Lemma str_eqb_eq (a b : str) : str_eqb a b = true <-> a = b.
Proof.
  revert b; induction a as [|x a IH]; intros [|y b]; cbn [str_eqb];
    try (split; [discriminate | discriminate]); try easy.
  rewrite andb_true_iff, N.eqb_eq, IH. split.
  - now intros [-> ->].
  - now intros [= -> ->].
Qed.

Lemma blank_has_no_marker (s : str) :
  Forall (fun c => is_space c = true) s ->
  contains "Final Answer:" s = false.
Proof.
  induction 1 as [|c r Hc _ IH]; [reflexivity|].
  cbn [contains]. rewrite IH, orb_false_r.
  change (py "Final Answer:") with (70%N :: py "inal Answer:").
  cbn [startswith]. destruct (N.eqb_spec 70 c) as [<-|]; [|reflexivity].
  discriminate Hc.
Qed.

End ContainsFacts.

Section RegistryFacts.
Context {World : Type}.
Variables calculator get_current_time get_weather search_arxiv
  : Tool.capability World.

#[local] Abbreviation new_agent :=
  (__init__ calculator get_current_time get_weather search_arxiv).

(** What a lookup in the registry of a new agent finds. *)
Lemma init_lookup (key model name : str) :
  match dict_get (tools (new_agent key model)) name with
  | Some tool =>
      Tool.name tool = name
      /\ ((name = "calculator" /\ Tool.function tool = calculator)
          \/ (name = "get_current_time"
              /\ Tool.function tool = get_current_time)
          \/ (name = "get_weather" /\ Tool.function tool = get_weather)
          \/ (name = "search_arxiv" /\ Tool.function tool = search_arxiv))
  | None =>
      ~ In name [py "calculator"; py "get_current_time";
                 py "get_weather"; py "search_arxiv"]
  end.
Proof.
  change (tools (new_agent key model))
    with [ (py "calculator",
            {| Tool.name := "calculator";
               Tool.description := "Evaluates mathematical expressions. Input: expression (string). Example: calculator(expression='2 + 2 * 5')";
               Tool.function := calculator |});
           (py "get_current_time",
            {| Tool.name := "get_current_time";
               Tool.description := "Returns current date and time. Input: timezone (optional, defaults to UTC). Example: get_current_time(timezone='UTC')";
               Tool.function := get_current_time |});
           (py "get_weather",
            {| Tool.name := "get_weather";
               Tool.description := "Gets weather forecast from National Weather Service for US locations. Input: latitude (float), longitude (float). Example: get_weather(latitude=38.8894, longitude=-77.0352)";
               Tool.function := get_weather |});
           (py "search_arxiv",
            {| Tool.name := "search_arxiv";
               Tool.description := "Searches for research papers on arXiv. Input: query (string), max_results (optional, default 3). Example: search_arxiv(query='machine learning', max_results=3)";
               Tool.function := search_arxiv |}) ].
  cbn [dict_get].
  repeat match goal with
         | |- context [str_eqb ?k name] =>
             let E := fresh "E" in
             destruct (str_eqb k name) eqn:E;
             [ apply str_eqb_eq in E; subst name; cbn [Tool.name Tool.function];
               split; [reflexivity | tauto]
             | ]
         end.
  cbn [In]. intros [<-|[<-|[<-|[<-|[]]]]]; discriminate.
Qed.

End RegistryFacts.

Section AgentExtras.
Context {World : Type}.
Variables calculator get_current_time get_weather search_arxiv
  : Tool.capability World.
Variable completion : str -> str -> list message -> World -> str * World.

#[local] Abbreviation frame := (ReActAgent.frame World).
#[local] Abbreviation loop := (loop completion).
#[local] Abbreviation run := (run completion).
#[local] Abbreviation new_agent :=
  (__init__ calculator get_current_time get_weather search_arxiv).

(** X7: every registered tool is announced to the model: the system prompt
    holds its line, the name and the description. *)
Theorem system_prompt_lists_every_tool
    (agent : t World) (tool_name : str) (tool : Tool.t World) :
  In (tool_name, tool) (tools agent) ->
  contains ("- " ++ tool_name ++ ": " ++ Tool.description tool)
           (system_prompt agent) = true.
Proof.
  intros Hin. unfold system_prompt, _get_tool_descriptions.
  apply (in_map (fun '(tool_name, tool) =>
                   "- " ++ tool_name ++ ": " ++ Tool.description tool)) in Hin.
  destruct (join_In nl _ _ Hin) as (a & b & ->).
  generalize ("- " ++ tool_name ++ ": " ++ Tool.description tool). intros line.
  rewrite <- !app_assoc. apply contains_app_r, contains_app_r.
  apply contains_prefix.
Qed.

(** X8: the registry of a new agent answers for exactly the four built-in
    names, and the tool found under a name carries that name. *)
Theorem new_agent_registry (key model name : str) :
  match dict_get (tools (new_agent key model)) name with
  | Some tool =>
      Tool.name tool = name
      /\ In name [py "calculator"; py "get_current_time";
                  py "get_weather"; py "search_arxiv"]
  | None =>
      ~ In name [py "calculator"; py "get_current_time";
                 py "get_weather"; py "search_arxiv"]
  end.
Proof.
  pose proof (init_lookup calculator get_current_time get_weather
                search_arxiv key model name) as H.
  destruct (dict_get _ _) as [tool|]; [|exact H].
  destruct H as [Hname Hcases]. split; [exact Hname|].
  cbn [In]. destruct Hcases as [[-> _]|[[-> _]|[[-> _]|[-> _]]]]; tauto.
Qed.

End AgentExtras.

Section PassExtras.
Context {World : Type}.
Variable lim : Json.limits.
Variable completion : str -> str -> list message -> World -> str * World.

#[local] Abbreviation frame := (ReActAgent.frame World).
#[local] Abbreviation scan_lines := (scan_lines lim).
#[local] Abbreviation _parse_action := (_parse_action lim).
#[local] Abbreviation iteration := (iteration lim completion).
#[local] Abbreviation loop := (loop lim completion).
#[local] Abbreviation run := (run lim completion).


(** X10: an [Action:] line with nothing but white space after the marker
    names no tool: if it is the last such line of a reply without the
    final-answer marker, and the parser returns, [run] returns the reply
    unchanged, whatever the registry holds and whatever input the reply
    gives. *)
Theorem empty_action_returns_raw_text
    (fuel : nat) (st : frame) (response : str) (w1 : World)
    (pre post : list str) (line : str) :
  (steps st < max_iterations (self st))%Z ->
  _call_llm completion (self st) (messages st) (world st) = (response, w1) ->
  contains "Final Answer:" response = false ->
  split (strip response) nl = pre ++ line :: post ->
  is_action_line line = true ->
  action_of line = [] ->
  Forall (fun l => is_action_line l = false) post ->
  parses lim response ->
  (exists input, _parse_action response = Ok (Some [], input))
  /\ loop (S fuel) st = Some (Ok response, replied st response w1).
Proof.
  intros Hlt Hc Hf Hsplit Hline Hempty Hpost (name & input & Hp).
  assert (name = Some []) as ->.
  { pose proof Hp as Hp'. unfold ReActAgent._parse_action in Hp'.
    cbv zeta in Hp'. rewrite Hsplit, scan_lines_app in Hp'.
    destruct (scan_lines pre (None, VNone)) as [[a i]|e]; [|discriminate].
    cbn [ReActAgent.scan_lines] in Hp'.
    rewrite (parse_line_action _ _ _ _ Hline), Hempty in Hp'.
    exact (scan_lines_keep_action lim _ Hpost _ _ _ _ Hp'). }
  split; [now exists input|].
  rewrite (loop_unfold _ _ _ _ Hlt). unfold ReActAgent.iteration.
  now rewrite Hc, Hf, Hp.
Qed.

(** X11: a reply of white space only, the empty reply included, parses to
    no action and no input, and [run] returns it as it is, not trimmed. *)
Theorem blank_reply_is_returned
    (fuel : nat) (st : frame) (response : str) (w1 : World) :
  (steps st < max_iterations (self st))%Z ->
  _call_llm completion (self st) (messages st) (world st) = (response, w1) ->
  strip response = [] ->
  _parse_action response = Ok (None, VNone)
  /\ loop (S fuel) st = Some (Ok response, replied st response w1).
Proof.
  intros Hlt Hc Hblank.
  assert (Hp : _parse_action response = Ok (None, VNone)).
  { unfold ReActAgent._parse_action. now rewrite Hblank. }
  split; [exact Hp|].
  rewrite (loop_unfold _ _ _ _ Hlt). unfold ReActAgent.iteration.
  rewrite Hc, (blank_has_no_marker _ (strip_nil _ Hblank)), Hp. reflexivity.
Qed.

(** X12: with a budget of zero or less [run] asks the model nothing: it
    returns the exhaustion message at once, in the world it was called
    in, having made no completion call. *)
Theorem no_budget_no_call (agent : t World) (q : str) (w : World) :
  (max_iterations agent <= 0)%Z ->
  run agent q w = Some (Ok exhausted, start agent q w)
  /\ calls (start agent q w) = 0
  /\ world (start agent q w) = w.
Proof.
  intros Hmax. unfold ReActAgent.run.
  replace (Z.to_nat (max_iterations agent)) with 0 by lia.
  cbn [ReActAgent.loop].
  destruct (Z.ltb_spec (steps (start agent q w))
                       (max_iterations (self (start agent q w))))
    as [Hlt|_]; [|now repeat split].
  unfold start in Hlt. cbn [steps self] in Hlt. lia.
Qed.

End PassExtras.

(* ================================================================== *)
(** * The built-in tools *)

Section SliceFacts.

Lemma split_from_absent (sep s : str) :
  forall cur,
    contains sep s = false -> split_from sep 0 cur s = [rev cur ++ s].
Proof.
  induction s as [|c r IH]; intros cur H; cbn [split_from].
  - now rewrite app_nil_r.
  - cbn [contains] in H. apply orb_false_iff in H as [H1 H2].
    rewrite H1, (IH _ H2). cbn [rev]. now rewrite <- app_assoc.
Qed.

Lemma split_from_found (sep s : str) :
  sep <> [] ->
  forall cur,
    contains sep s = true ->
    exists a b rest, split_from sep 0 cur s = a :: b :: rest.
Proof.
  intros Hsep. induction s as [|c r IH]; intros cur H.
  - cbn in H. destruct sep; [congruence | discriminate].
  - cbn [split_from]. destruct (startswith (c :: r) sep) eqn:E.
    + destruct (split_from sep (List.length sep - 1) [] r) as [|b rest] eqn:E2.
      { now apply split_from_nonempty in E2. }
      now exists (rev cur), b, rest.
    + cbn [contains] in H. rewrite E in H. now apply IH.
Qed.

Lemma slice_from_1 {A} (l : list A) : slice l (Some 1%Z) None = tl l.
Proof.
  unfold slice, clamp. destruct l as [|x r]; [reflexivity|].
  cbn [List.length tl].
  replace (Z.min 1 (Z.of_nat (S (List.length r)))) with 1%Z by lia.
  cbn [Z.ltb Z.compare]. change (Z.to_nat 1) with 1. cbn [skipn].
  replace (Z.to_nat (Z.of_nat (S (List.length r)) - 1)) with (List.length r)
    by lia.
  apply firstn_all.
Qed.

Lemma slice_to {A} (l : list A) (m : Z) :
  slice l None (Some m)
  = if (m <? 0)%Z then firstn (List.length l - Z.to_nat (- m)) l
    else firstn (Z.to_nat m) l.
Proof.
  unfold slice, clamp. cbn [skipn Z.to_nat]. rewrite Z.sub_0_r.
  destruct (Z.ltb_spec m 0).
  - f_equal. lia.
  - destruct (Z.le_ge_cases m (Z.of_nat (List.length l))).
    + now rewrite Z.min_l.
    + rewrite Z.min_r by assumption. rewrite Nat2Z.id.
      rewrite firstn_all. symmetry. apply firstn_all2. lia.
Qed.

Lemma slice_to_length {A} (l : list A) (m : Z) :
  List.length (slice l None (Some m))
  = if (m <? 0)%Z then List.length l - Z.to_nat (- m)
    else Nat.min (Z.to_nat m) (List.length l).
Proof.
  rewrite slice_to. destruct (m <? 0)%Z; rewrite length_firstn; lia.
Qed.

Lemma fold_left_blocks {A B} (f : A -> B -> str) (xs : list (A * B))
    (init : str) :
  fold_left (fun result '(i, x) => result ++ f i x) xs init
  = init ++ List.concat (List.map (fun '(i, x) => f i x) xs).
Proof.
  revert init; induction xs as [|[i x] xs IH]; intros init;
    cbn [fold_left List.map List.concat].
  - now rewrite app_nil_r.
  - rewrite IH. now rewrite <- app_assoc.
Qed.

End SliceFacts.

Section LoneInput.
Context {World : Type}.
Variable lim : Json.limits.

#[local] Abbreviation _parse_action := (_parse_action lim).
#[local] Abbreviation loads := (Json.loads lim).
#[local] Abbreviation run := (run lim).

Lemma contains_absent_head (c : N) (p s : str) :
  ~ In c s -> contains (c :: p) s = false.
Proof.
  induction s as [|x r IH]; intros H; cbn [contains startswith];
    [reflexivity|].
  destruct (N.eqb_spec c x) as [->|_]; [exfalso; apply H; now left|].
  cbn [andb orb]. apply IH. intros Hin. apply H. now right.
Qed.

Lemma strip_fixed (s : str) : no_lead s -> no_lead (rev s) -> strip s = s.
Proof.
  intros H1 H2. unfold strip, rstrip.
  rewrite (lstrip_fixed s H1), (lstrip_fixed _ H2). apply rev_involutive.
Qed.

Lemma no_lead_rev_app (a b : str) :
  b <> [] -> no_lead (rev b) -> no_lead (rev (a ++ b)).
Proof.
  intros Hb H. rewrite rev_app_distr.
  destruct (rev b) as [|c r] eqn:E; [|exact H].
  apply (f_equal (@rev N)) in E. rewrite rev_involutive in E. now subst b.
Qed.

Lemma lone_input_lines (payload : str) :
  payload <> [] -> no_lead (rev payload) -> ~ In 10%N payload ->
  split (strip ("Action Input: " ++ payload)) nl
  = ["Action Input: " ++ payload].
Proof.
  intros Hne Hr Hnl.
  assert (Hstrip : strip ("Action Input: " ++ payload)
                   = "Action Input: " ++ payload).
  { apply strip_fixed; [reflexivity|]. now apply no_lead_rev_app. }
  rewrite Hstrip. unfold split.
  rewrite split_from_absent; [reflexivity|].
  apply contains_absent_head. intros Hin. apply in_app_or in Hin.
  destruct Hin as [Hin|Hin]; [|now apply Hnl].
  vm_compute in Hin. intuition discriminate.
Qed.

(** A reply that is one [Action Input:] line: the parser hands what
    follows the marker to [json.loads] and recognises no name. *)
Lemma parse_lone_input (payload : str) :
  payload <> [] ->
  no_lead payload -> no_lead (rev payload) ->
  ~ In 10%N payload -> ~ In 65%N payload ->
  _parse_action ("Action Input: " ++ payload)
  = match loads payload with
    | Ok v => Ok (None, v)
    | Raise JSONDecodeError => Ok (None, VDict [(py "input", VStr payload)])
    | Raise e => Raise e
    end.
Proof.
  intros Hne Hl Hr Hnl HA.
  unfold ReActAgent._parse_action. cbv zeta.
  rewrite (lone_input_lines payload Hne Hr Hnl).
  cbn [ReActAgent.scan_lines]. unfold ReActAgent.parse_line.
  change (startswith ("Action Input: " ++ payload) "Action:") with false.
  rewrite (startswith_prefix "Action Input:" (32%N :: payload)
           : startswith ("Action Input: " ++ payload) "Action Input:" = true).
  cbv iota zeta.
  change (py "Action Input: " ++ payload)
    with (py "Action Input:" ++ 32%N :: payload).
  rewrite replace_leading by discriminate.
  rewrite replace_absent.
  2:{ apply contains_absent_head. intros [Hin|Hin]; [discriminate|].
      now apply HA. }
  assert (Hp : strip (32%N :: payload) = payload).
  { unfold strip. cbn [lstrip]. change (is_space 32) with true. cbv iota.
    rewrite (lstrip_fixed _ Hl). unfold rstrip.
    rewrite (lstrip_fixed _ Hr). apply rev_involutive. }
  rewrite Hp. destruct (loads payload) as [v|[]]; reflexivity.
Qed.

Lemma rev_repeat {A} (x : A) (n : nat) : rev (repeat x n) = repeat x n.
Proof.
  induction n as [|n IH]; [reflexivity|].
  cbn [repeat rev]. rewrite IH. symmetry. apply repeat_cons.
Qed.

Lemma run_lone_input (agent : t World) (q : str) (w : World) (payload : str) :
  (0 < max_iterations agent)%Z ->
  payload <> [] ->
  no_lead payload -> no_lead (rev payload) ->
  ~ In 10%N payload -> ~ In 65%N payload -> ~ In 70%N payload ->
  run (lone_input payload) agent q w
  = Some (match loads payload with
          | Ok _ | Raise JSONDecodeError => Ok ("Action Input: " ++ payload)
          | Raise e => Raise e
          end,
          replied (start agent q w) ("Action Input: " ++ payload) w).
Proof.
  intros Hmax Hne Hl Hr Hnl HA HF. unfold ReActAgent.run.
  destruct (Z.to_nat (max_iterations agent)) as [|fuel] eqn:Ef; [lia|].
  rewrite loop_unfold by (unfold start; cbn [steps self]; lia).
  unfold iteration, _call_llm, lone_input, start.
  cbn [self world messages steps calls].
  change (py "Final Answer:") with (70%N :: py "inal Answer:").
  rewrite contains_absent_head.
  2:{ intros Hin. apply in_app_or in Hin.
      destruct Hin as [Hin|Hin]; [|now apply HF].
      vm_compute in Hin. intuition discriminate. }
  rewrite (parse_lone_input payload Hne Hl Hr Hnl HA).
  destruct (loads payload) as [v|[]]; reflexivity.
Qed.

Lemma repeat_payload (c : N) (n : nat) :
  0 < n -> is_space c = false -> c <> 10%N -> c <> 65%N -> c <> 70%N ->
  repeat c n <> []
  /\ no_lead (repeat c n) /\ no_lead (rev (repeat c n))
  /\ ~ In 10%N (repeat c n) /\ ~ In 65%N (repeat c n)
  /\ ~ In 70%N (repeat c n).
Proof.
  intros Hn Hs H10 H65 H70. rewrite rev_repeat.
  destruct n as [|n]; [lia|].
  repeat apply conj; try discriminate; try exact Hs;
    intros Hin; apply repeat_spec in Hin; congruence.
Qed.

(** C8: the specification has [run] return every reply that has neither
    the marker nor an [Action:] line.  A reply of that kind whose
    [Action Input:] line holds an integer with more digits than the
    interpreter converts makes [json.loads] raise [ValueError], which the
    handler of the parser does not catch: [run] raises it after one
    request. *)
Theorem C8_no_action_reply_can_raise
    (agent : t World) (q : str) (w : World) (n : nat) :
  (0 < max_iterations agent)%Z ->
  Json.int_str_threshold < n -> 0 < int_max_str_digits lim < n ->
  let reply := "Action Input: " ++ repeat 49%N n in
  contains "Final Answer:" reply = false
  /\ Forall (fun line => is_action_line line = false)
            (split (strip reply) nl)
  /\ run (lone_input (repeat 49%N n)) agent q w
     = Some (Raise ValueError, replied (start agent q w) reply w).
Proof.
  intros Hmax Hn Hm reply. unfold Json.int_str_threshold in Hn.
  destruct (repeat_payload 49 n) as (H1 & H2 & H3 & H4 & H5 & H6);
    try discriminate; try reflexivity; [lia|].
  repeat apply conj.
  - subst reply. change (py "Final Answer:") with (70%N :: py "inal Answer:").
    apply contains_absent_head. intros Hin. apply in_app_or in Hin.
    destruct Hin as [Hin|Hin]; [|now apply H6].
    vm_compute in Hin. intuition discriminate.
  - subst reply. rewrite (lone_input_lines _ H1 H3 H4).
    constructor; [reflexivity | constructor].
  - rewrite (run_lone_input agent q w _ Hmax H1 H2 H3 H4 H5 H6).
    rewrite (loads_ones lim n) by lia.
    unfold Json.too_many_digits, Json.int_str_threshold.
    rewrite repeat_length.
    destruct (Nat.ltb_spec 640 n); [|lia].
    destruct (Nat.ltb_spec 0 (int_max_str_digits lim)); [|lia].
    destruct (Nat.ltb_spec (int_max_str_digits lim) n); [|lia].
    reflexivity.
Qed.

(** X23: a reply that names no tool still makes [run] fail when its
    [Action Input:] line is beyond what the decoder takes.  Arrays nested
    deeper than the interpreter allows make [run] raise [RecursionError],
    and an integer with more digits than the interpreter converts makes
    it raise [ValueError], each after one request; an integer within the
    limit is returned with the rest of the reply. *)
Theorem input_beyond_limits_reaches_the_caller
    (agent : t World) (q : str) (w : World) (n : nat) :
  (0 < max_iterations agent)%Z ->
  (max_depth lim < n ->
   run (lone_input (repeat 91%N n)) agent q w
   = Some (Raise RecursionError,
           replied (start agent q w) ("Action Input: " ++ repeat 91%N n) w))
  /\ (Json.int_str_threshold < n -> 0 < int_max_str_digits lim < n ->
      run (lone_input (repeat 49%N n)) agent q w
      = Some (Raise ValueError,
              replied (start agent q w)
                ("Action Input: " ++ repeat 49%N n) w))
  /\ (0 < n -> n <= Json.int_str_threshold \/ n <= int_max_str_digits lim ->
      run (lone_input (repeat 49%N n)) agent q w
      = Some (Ok ("Action Input: " ++ repeat 49%N n),
              replied (start agent q w)
                ("Action Input: " ++ repeat 49%N n) w)).
Proof.
  intros Hmax. unfold Json.int_str_threshold. repeat apply conj.
  - intros Hn.
    destruct (repeat_payload 91 n) as (H1 & H2 & H3 & H4 & H5 & H6);
      try discriminate; try reflexivity; [lia|].
    rewrite (run_lone_input agent q w _ Hmax H1 H2 H3 H4 H5 H6).
    now rewrite (loads_nested lim n Hn).
  - intros Hn Hm.
    destruct (repeat_payload 49 n) as (H1 & H2 & H3 & H4 & H5 & H6);
      try discriminate; try reflexivity; [lia|].
    rewrite (run_lone_input agent q w _ Hmax H1 H2 H3 H4 H5 H6).
    rewrite (loads_ones lim n) by lia.
    unfold Json.too_many_digits, Json.int_str_threshold. rewrite repeat_length.
    destruct (Nat.ltb_spec 640 n); [|lia].
    destruct (Nat.ltb_spec 0 (int_max_str_digits lim)); [|lia].
    destruct (Nat.ltb_spec (int_max_str_digits lim) n); [|lia].
    reflexivity.
  - intros Hn Hm.
    destruct (repeat_payload 49 n) as (H1 & H2 & H3 & H4 & H5 & H6);
      try discriminate; try reflexivity; [lia|].
    rewrite (run_lone_input agent q w _ Hmax H1 H2 H3 H4 H5 H6).
    rewrite (loads_ones lim n) by lia.
    unfold Json.too_many_digits, Json.int_str_threshold. rewrite repeat_length.
    destruct (Nat.ltb_spec 640 n); cbn [andb]; [|reflexivity].
    destruct (Nat.ltb_spec 0 (int_max_str_digits lim)); cbn [andb];
      [|reflexivity].
    destruct (Nat.ltb_spec (int_max_str_digits lim) n); [lia|].
    reflexivity.
Qed.

End LoneInput.

Section LimitExtras.
Context {World : Type}.
Variable lim : Json.limits.
Variable completion : str -> str -> list message -> World -> str * World.

#[local] Abbreviation scan_lines := (scan_lines lim).
#[local] Abbreviation _parse_action := (_parse_action lim).
#[local] Abbreviation input_of := (input_of lim).
#[local] Abbreviation loads := (Json.loads lim).
#[local] Abbreviation run := (run lim).

Lemma input_of_loads (line : str) :
  input_of line
  = match loads (input_text line) with
    | Ok v => Ok v
    | Raise JSONDecodeError =>
        Ok (VDict [(py "input", VStr (input_text line))])
    | Raise e => Raise e
    end.
Proof. reflexivity. Qed.

Lemma input_of_Ok (line : str) :
  (exists v, input_of line = Ok v)
  <-> loads (input_text line) <> Raise RecursionError
      /\ loads (input_text line) <> Raise ValueError.
Proof.
  rewrite input_of_loads.
  destruct (loads_cases lim (input_text line))
    as [[v ->] | [-> | [-> | ->]]].
  - split; [split; discriminate | now exists v].
  - split; [split; discriminate | now eexists].
  - split; [intros [v H]; discriminate | now intros [H _]].
  - split; [intros [v H]; discriminate | now intros [_ H]].
Qed.

Lemma input_of_Raise (line : str) (e : exn) :
  input_of line = Raise e ->
  (e = RecursionError \/ e = ValueError) /\ loads (input_text line) = Raise e.
Proof.
  intros H. split; [exact (input_of_raises lim line e H)|].
  rewrite input_of_loads in H.
  destruct (loads (input_text line)) as [v|[]]; try discriminate;
    now injection H as <-.
Qed.

(** An exception of the parser is the one of the first [Action Input:]
    line that [input_of] fails on. *)
Lemma scan_lines_Raise (lines : list str) :
  forall acc e,
    scan_lines lines acc = Raise e ->
    exists line,
      In line lines /\ is_input_line line = true /\ input_of line = Raise e.
Proof.
  induction lines as [|l rest IH]; intros [a i] e;
    cbn [ReActAgent.scan_lines]; [discriminate|].
  destruct (is_action_line l) eqn:Ea.
  { rewrite (parse_line_action _ _ _ _ Ea). intros H.
    destruct (IH _ _ H) as (line & Hin & Hi & Hr).
    exists line. split; [now right | now split]. }
  destruct (is_input_line l) eqn:Ei.
  - rewrite (parse_line_input _ _ _ _ Ei).
    destruct (input_of l) as [v|e'] eqn:Ev.
    + intros H. destruct (IH _ _ H) as (line & Hin & Hi & Hr).
      exists line. split; [now right | now split].
    + intros [= <-]. exists l. split; [now left | now split].
  - rewrite (parse_line_other _ _ _ Ea Ei). intros H.
    destruct (IH _ _ H) as (line & Hin & Hi & Hr).
    exists line. split; [now right | now split].
Qed.

(** X22: the parser fails only where [json.loads] does, on the text of an
    [Action Input:] line, and only with what its handler does not catch.
    It returns exactly when [json.loads] raises neither [RecursionError]
    nor [ValueError] on any of these lines; otherwise it raises what
    [json.loads] raised on one of them. *)
Theorem parser_fails_only_where_loads_does (text : str) :
  (parses lim text <->
   Forall (fun line =>
             is_input_line line = true ->
             loads (input_text line) <> Raise RecursionError
             /\ loads (input_text line) <> Raise ValueError)
          (split (strip text) nl))
  /\ (forall e,
         _parse_action text = Raise e ->
         (e = RecursionError \/ e = ValueError)
         /\ exists line,
              In line (split (strip text) nl)
              /\ is_input_line line = true
              /\ loads (input_text line) = Raise e).
Proof.
  split.
  - rewrite parses_iff. unfold decodes. split; intros H;
      (eapply Forall_impl; [|exact H]); cbv beta; intros line Hl Hi;
      apply input_of_Ok, Hl, Hi.
  - intros e H. unfold ReActAgent._parse_action in H. cbv zeta in H.
    destruct (scan_lines_Raise _ _ _ H) as (line & Hin & Hi & Hr).
    destruct (input_of_Raise _ _ Hr) as [He Hl].
    split; [exact He|]. now exists line.
Qed.

(** X24: the count that a frame keeps is the number of requests that the
    completion endpoint has served: a call with a meter on the endpoint
    yields what the call without it yields, in the same world and with the
    same transcript, and the meter ends at the count. *)
Theorem frame_counts_the_requests (agent : t World) (q : str) (w : World) :
  exists r st st',
    run completion agent q w = Some (r, st)
    /\ run (metered completion) (with_meter agent) q (w, 0)
       = Some (r, st')
    /\ world st' = (world st, calls st)
    /\ messages st' = messages st
    /\ steps st' = steps st.
Proof.
  destruct (run_returns lim completion agent q w) as (r & st & E & _ & _).
  exists r, st, (frame_with_meter st).
  rewrite run_with_meter, E. now repeat split.
Qed.

End LimitExtras.

Section BuiltinExtras.
Context {World : Type}.
Variable repr_float : str -> str.
Variable repr_str : str -> str.
Variable binding_error : str -> list (str * value) -> str.
Variable strftime_now : World -> str * World.
Variable http_get : str -> list (str * value) -> World -> Builtin.http_result * World.
Variable calculator_body : value -> World -> Tool.outcome * World.
Variable get_weather_body : value -> value -> World -> str * World.

#[local] Abbreviation py_str := (py_str repr_float repr_str).
#[local] Abbreviation search_arxiv_body :=
  (Builtin.search_arxiv_body repr_float repr_str http_get).
#[local] Abbreviation new_agent :=
  (Builtin.new_agent repr_float repr_str binding_error strftime_now http_get
     calculator_body get_weather_body).

(** The request that [search_arxiv] sends. *)
#[local] Abbreviation arxiv_request query max_results w :=
  (http_get "http://export.arxiv.org/api/query"
     [ (py "search_query", VStr ("all:" ++ py_str query));
       (py "start", VInt 0);
       (py "max_results", max_results) ] w).

(** X13: a feed without any entry is answered with [No papers found],
    whatever [max_results] is; a feed with an entry and a [max_results]
    that is no integer, boolean or [None] is answered with the text of
    the slice's [TypeError]. *)
Theorem search_arxiv_edge_answers
    (query max_results : value) (w w' : World) (content : str) :
  arxiv_request query max_results w = (Builtin.Response 200 content, w') ->
  (contains "<entry>" content = false ->
   search_arxiv_body query max_results w
   = ("No papers found for query: " ++ py_str query, w'))
  /\ (contains "<entry>" content = true ->
      Builtin.slice_bound max_results = None ->
      search_arxiv_body query max_results w
      = (py "Error searching arXiv: slice indices must be integers or None or have an __index__ method",
         w')).
Proof.
  intros Hreq. unfold Builtin.search_arxiv_body. cbv zeta. rewrite Hreq.
  cbn [Z.eqb Pos.eqb negb]. rewrite slice_from_1. split.
  - intros Habsent. unfold split.
    now rewrite (split_from_absent _ _ [] Habsent).
  - intros Hfound Hbound. unfold split.
    destruct (split_from_found "<entry>" content ltac:(discriminate) [] Hfound)
      as (a & b & rest & ->).
    cbn [tl]. now rewrite Hbound.
Qed.

(** X14: with an integer [max_results] the answer is a header that counts
    all the entries of the feed, followed by one block for each listed
    entry, numbered from one.  For a [max_results] of zero or more the
    first [max_results] entries are listed, all of them if there are
    fewer; for a negative one, all but the last [-max_results]. *)
Theorem search_arxiv_listing
    (query : value) (m : Z) (w w' : World) (content : str) :
  arxiv_request query (VInt m) w = (Builtin.Response 200 content, w') ->
  contains "<entry>" content = true ->
  exists before entries listed,
    split content "<entry>" = before :: entries
    /\ listed = (if (m <? 0)%Z
                 then firstn (List.length entries - Z.to_nat (- m)) entries
                 else firstn (Z.to_nat m) entries)
    /\ List.length listed
       = (if (m <? 0)%Z then List.length entries - Z.to_nat (- m)
          else Nat.min (Z.to_nat m) (List.length entries))
    /\ search_arxiv_body query (VInt m) w
       = (("Found " ++ str_of_nat (List.length entries) ++ " papers for '"
           ++ py_str query ++ "':" ++ nl ++ nl)
          ++ List.concat
               (List.map (fun '(i, entry) => Builtin.entry_block i entry)
                         (combine (seq 1 (List.length listed)) listed)),
          w').
Proof.
  intros Hreq Hfound. unfold split.
  destruct (split_from_found "<entry>" content ltac:(discriminate) [] Hfound)
    as (a & b & rest & Hsplit).
  exists a, (b :: rest), (slice (b :: rest) None (Some m)).
  split; [exact Hsplit|]. split; [apply slice_to|].
  split; [apply slice_to_length|].
  unfold Builtin.search_arxiv_body. cbv zeta. rewrite Hreq.
  cbn [Z.eqb Pos.eqb negb]. rewrite slice_from_1. unfold split.
  rewrite Hsplit. cbn [tl Builtin.slice_bound].
  rewrite fold_left_blocks. reflexivity.
Qed.

(** X15: whatever an entry of the feed looks like, at most three authors
    are reported for it and its summary is cut to 200 characters before
    the dots are added; title and authors are trimmed. *)
Theorem search_arxiv_fields_are_bounded (entry : str) :
  List.length (Builtin.authors_of entry) <= 3
  /\ Forall (fun author => strip author = author) (Builtin.authors_of entry)
  /\ strip (Builtin.title_of entry) = Builtin.title_of entry
  /\ (exists body,
         Builtin.summary_of entry = body ++ "..."
         /\ List.length body <= 200)
  /\ List.length (Builtin.summary_of entry) <= 203.
Proof.
  unfold Builtin.authors_of, Builtin.title_of, Builtin.summary_of. cbv zeta.
  repeat apply conj.
  - rewrite length_map, slice_to_length. cbn [Z.ltb Z.compare]. lia.
  - apply Forall_map, Forall_forall. intros a _. apply strip_idempotent.
  - apply strip_idempotent.
  - eexists. split; [reflexivity|].
    rewrite slice_to_length. cbn [Z.ltb Z.compare]. lia.
  - rewrite length_app, slice_to_length. cbn [Z.ltb Z.compare].
    change (List.length (py "...")) with 3. lia.
Qed.

(** X16: the mapping that the parser makes of an input that is not JSON has
    the single key [input], which is no parameter of any built-in tool: on
    such an input each of the four tools fails at the call, before its
    body runs, and [execute] reports the interpreter's error for the call.
    The world is as it was. *)
Theorem fallback_input_fits_no_builtin
    (key name raw : str) (tool : Tool.t World) (w : World) :
  dict_get (tools (new_agent key)) name = Some tool ->
  Tool.execute tool [(py "input", VStr raw)] w
  = ("Error executing " ++ name ++ ": "
     ++ binding_error name [(py "input", VStr raw)], w).
Proof.
  intros Hget.
  pose proof (init_lookup (Builtin.calculator binding_error calculator_body)
                (Builtin.get_current_time repr_float repr_str binding_error
                   strftime_now)
                (Builtin.get_weather binding_error get_weather_body)
                (Builtin.search_arxiv repr_float repr_str binding_error
                   http_get)
                key default_model name) as H.
  unfold Builtin.new_agent in Hget. rewrite Hget in H.
  destruct H as [Hname Hcases]. unfold Tool.execute.
  destruct Hcases as [[Hn ->]|[[Hn ->]|[[Hn ->]|[Hn ->]]]]; rewrite Hname, Hn;
    reflexivity.
Qed.

(** X17: [get_current_time] takes its argument for a label only: asked
    without a time zone it reports the clock with the label [UTC], asked
    with one it reports the same reading of the clock with that label. *)
Theorem get_current_time_labels_the_clock
    (key : str) (timezone : value) (w : World) :
  exists tool,
    dict_get (tools (new_agent key)) "get_current_time" = Some tool
    /\ Tool.execute tool [] w
       = ("Current time: " ++ fst (strftime_now w) ++ " UTC",
          snd (strftime_now w))
    /\ Tool.execute tool [(py "timezone", timezone)] w
       = ("Current time: " ++ fst (strftime_now w) ++ " " ++ py_str timezone,
          snd (strftime_now w)).
Proof.
  eexists. split; [reflexivity|].
  unfold Tool.execute, Builtin.get_current_time.
  cbn [Tool.function Builtin.accepts forallb existsb str_eqb dict_get orb].
  destruct (strftime_now w) as [now w'].
  split; reflexivity.
Qed.

End BuiltinExtras.

(* ================================================================== *)
(** * The interactive loop *)

Section CliExtras.
Context {World : Type}.
Variable lim : Json.limits.
Variables calculator get_current_time get_weather search_arxiv
  : Tool.capability World.
Variable completion : str -> str -> list message -> World -> str * World.
Variable lower : str -> str.
Variable describe : exn -> str.

#[local] Abbreviation main_pass :=
  (Cli.main_pass lim completion lower describe).
#[local] Abbreviation main_loop :=
  (Cli.main_loop lim completion lower describe).
#[local] Abbreviation main :=
  (Cli.main lim calculator get_current_time get_weather search_arxiv
     completion lower describe).
#[local] Abbreviation ends_session := (Cli.ends_session lower).

(** One pass keeps the agent object, never gets stuck, and leaves the
    loop exactly on an event that ends the session. *)
Lemma main_pass_control (agent : ReActAgent.t World) (ev : Cli.event) (w : World) :
  exists out c w',
    main_pass agent ev w = (out, c, agent, w')
    /\ c <> Cli.Stuck
    /\ (c = Cli.Break <-> ends_session ev = true).
Proof.
  destruct ev as [s| |]; cbn [Cli.main_pass Cli.ends_session].
  - destruct (strip s) as [|c u] eqn:Eu.
    { do 3 eexists. split; [reflexivity|]. split; [discriminate|].
      split; discriminate. }
    destruct (str_eqb _ _ || str_eqb _ _).
    { do 3 eexists. split; [reflexivity|]. split; [discriminate|].
      split; reflexivity. }
    destruct (str_eqb _ _).
    { do 3 eexists. split; [reflexivity|]. split; [discriminate|].
      split; discriminate. }
    destruct (run_returns lim completion agent (c :: u) w)
      as ([answer|e] & st & -> & <- & _);
      do 3 eexists; (split; [reflexivity|]); (split; [discriminate|]);
      split; discriminate.
  - do 3 eexists. split; [reflexivity|]. split; [discriminate|].
    split; discriminate.
  - do 3 eexists. split; [reflexivity|]. split; [discriminate|].
    split; reflexivity.
Qed.

(** The loop on a run of events that is cut in two. *)
Lemma main_loop_app (e1 e2 : list Cli.event) :
  forall (agent : ReActAgent.t World) (w : World),
    main_loop agent (e1 ++ e2) w
    = match main_loop agent e1 w with
      | (out, Cli.Reading, w') =>
          let '(out', s, w'') := main_loop agent e2 w' in
          (out ++ out', s, w'')
      | stopped => stopped
      end.
Proof.
  induction e1 as [|ev rest IH]; intros agent w; cbn [app Cli.main_loop].
  - now destruct (main_loop agent e2 w) as [[out s] w'].
  - destruct (main_pass_control agent ev w) as (out & c & w' & -> & _ & _).
    destruct c; try reflexivity.
    rewrite IH. destruct (main_loop agent rest w') as [[out1 s1] w1].
    destruct s1; try reflexivity.
    destruct (main_loop agent e2 w1) as [[out2 s2] w2].
    now rewrite app_assoc.
Qed.


(** X19: nothing is read after the event that ends the session: what
    follows it changes neither the output nor the world. *)
Theorem nothing_is_read_after_goodbye
    (getenv : option str) (before after : list Cli.event) (ev : Cli.event)
    (w : World) :
  ends_session ev = true ->
  main getenv (before ++ ev :: after) w = main getenv (before ++ [ev]) w.
Proof.
  intros Hend. unfold Cli.main.
  destruct getenv as [[|c key]|]; try reflexivity.
  set (agent := __init__ _ _ _ _ _ _).
  rewrite !main_loop_app.
  destruct (main_loop agent before w) as [[out s] w'].
  destruct s; try reflexivity.
  cbn [Cli.main_loop].
  destruct (main_pass_control agent ev w') as (out1 & c1 & w1 & -> & Hc & Hb).
  destruct Hb as [_ Hb]. rewrite (Hb Hend). reflexivity.
Qed.


(** X21: blank lines make no difference: with them taken out of the input
    the session ends the same way and leaves the same world. *)
Theorem blank_lines_are_skipped
    (getenv : option str) (events : list Cli.event) (w : World) :
  let '(_, s1, w1) := main getenv events w in
  let '(_, s2, w2) :=
    main getenv (filter (fun ev => negb (Cli.blank ev)) events) w in
  s1 = s2 /\ w1 = w2.
Proof.
  unfold Cli.main. destruct getenv as [[|c key]|]; try now split.
  set (agent := __init__ _ _ _ _ _ _). clearbody agent.
  assert (H : forall events w,
             let '(_, s1, w1) := main_loop agent events w in
             let '(_, s2, w2) :=
               main_loop agent
                 (filter (fun ev => negb (Cli.blank ev)) events) w in
             s1 = s2 /\ w1 = w2).
  { clear events w. induction events as [|ev rest IH]; intros w.
    - cbn. now split.
    - cbn [filter]. destruct (Cli.blank ev) eqn:Eb; cbn [negb].
      + destruct ev as [s| |]; try discriminate Eb.
        cbn [Cli.main_loop Cli.main_pass]. cbn [Cli.blank] in Eb.
        destruct (strip s); [|discriminate Eb].
        specialize (IH w).
        destruct (main_loop agent rest w) as [[o1 s1] w1].
        destruct (main_loop agent (filter _ rest) w) as [[o2 s2] w2].
        exact IH.
      + cbn [Cli.main_loop].
        destruct (main_pass_control agent ev w) as (out & ctl & w' & -> & _ & _).
        destruct ctl; try now split.
        specialize (IH w').
        destruct (main_loop agent rest w') as [[o1 s1] w1].
        destruct (main_loop agent (filter _ rest) w') as [[o2 s2] w2].
        exact IH. }
  specialize (H events w).
  destruct (main_loop agent events w) as [[o1 s1] w1].
  destruct (main_loop agent (filter _ events) w) as [[o2 s2] w2].
  exact H.
Qed.

End CliExtras.

(* ================================================================== *)
(** * The further statements at the closed instances *)

Section ExtraWitnesses.
Import Fixture Sample.

#[local] Abbreviation entry := (start Fixture.agent "2+2?" tt).
#[local] Abbreviation _parse_action := (_parse_action Json.cpython).
#[local] Abbreviation loop := (loop Json.cpython).
#[local] Abbreviation run := (run Json.cpython).

Lemma parsed_name_is_trimmed_line_witness :
  strip (py "calculator") = py "calculator" /\ ~ In 10%N (py "calculator").
Proof.
  apply (parsed_name_is_trimmed_line Json.cpython division "calculator"
           (VDict [(py "expression", VStr "1/0")])).
  reflexivity.
Defined.

Lemma system_prompt_lists_every_tool_witness :
  contains
    "- calculator: Evaluates mathematical expressions. Input: expression (string). Example: calculator(expression='2 + 2 * 5')"
    (system_prompt Fixture.agent) = true.
Proof.
  apply (system_prompt_lists_every_tool Fixture.agent "calculator"
           {| Tool.name := "calculator";
              Tool.description := "Evaluates mathematical expressions. Input: expression (string). Example: calculator(expression='2 + 2 * 5')";
              Tool.function := failing |}).
  left. reflexivity.
Defined.


Lemma empty_action_returns_raw_text_witness :
  (exists input, _parse_action empty_action = Ok (Some [], input))
  /\ loop (always empty_action) 10 entry
     = Some (Ok empty_action, replied entry empty_action tt).
Proof.
  apply (empty_action_returns_raw_text Json.cpython (always empty_action)
           9 entry empty_action tt [py "Thought: hm"] [] "Action:");
    try reflexivity.
  - constructor.
  - exists (Some []), VNone. reflexivity.
Defined.

Lemma blank_reply_is_returned_witness :
  _parse_action blank_reply = Ok (None, VNone)
  /\ loop (always blank_reply) 10 entry
     = Some (Ok blank_reply, replied entry blank_reply tt).
Proof.
  apply (blank_reply_is_returned Json.cpython (always blank_reply) 9 entry
           blank_reply tt);
    reflexivity.
Defined.

Lemma no_budget_no_call_witness :
  run (always missing_tool) idle_agent "2+2?" tt
  = Some (Ok exhausted, start idle_agent "2+2?" tt)
  /\ calls (start idle_agent "2+2?" tt) = 0
  /\ world (start idle_agent "2+2?" tt) = tt.
Proof.
  apply (no_budget_no_call Json.cpython (always missing_tool) idle_agent
           "2+2?" tt).
  vm_compute. discriminate.
Defined.

Lemma search_arxiv_edge_answers_witness :
  Builtin.search_arxiv_body repr_float repr_str (serve "<feed></feed>")
    (VStr "q") (VStr "3") tt
  = ("No papers found for query: " ++ "q", tt).
Proof.
  refine (proj1 (search_arxiv_edge_answers repr_float repr_str
                   (serve "<feed></feed>") (VStr "q") (VStr "3") tt tt
                   "<feed></feed>" eq_refl) eq_refl).
Defined.

Lemma search_arxiv_listing_witness :
  exists before entries listed,
    split feed "<entry>" = before :: entries
    /\ listed = firstn 2 entries
    /\ List.length listed = 2
    /\ Builtin.search_arxiv_body repr_float repr_str (serve feed)
         (VStr "q") (VInt 2) tt
       = (("Found " ++ str_of_nat (List.length entries) ++ " papers for '"
           ++ "q" ++ "':" ++ nl ++ nl)
          ++ List.concat
               (List.map (fun '(i, entry) => Builtin.entry_block i entry)
                         (combine (seq 1 (List.length listed)) listed)),
          tt).
Proof.
  destruct (search_arxiv_listing repr_float repr_str (serve feed)
              (VStr "q") 2 tt tt feed eq_refl eq_refl)
    as (before & entries & listed & Hs & Hl & Hn & Hr).
  exists before, entries, listed. cbn [Z.ltb Z.compare] in Hl, Hn.
  change (Z.to_nat 2) with 2 in Hl, Hn.
  repeat split; try assumption.
  rewrite Hn. vm_compute in Hs. injection Hs as _ <-. reflexivity.
Defined.

Lemma fallback_input_fits_no_builtin_witness :
  exists tool,
    dict_get (tools (Sample.new_agent feed)) "search_arxiv" = Some tool
    /\ Tool.execute tool [(py "input", VStr "quantum")] tt
       = ("Error executing " ++ "search_arxiv" ++ ": "
          ++ binding_error "search_arxiv" [(py "input", VStr "quantum")], tt).
Proof.
  eexists. split; [reflexivity|].
  match goal with
  | |- Tool.execute ?tool _ _ = _ =>
      apply (fallback_input_fits_no_builtin repr_float repr_str binding_error
               strftime_now (serve feed) calculator_body get_weather_body
               "key" "search_arxiv" "quantum" tool tt)
  end.
  reflexivity.
Defined.

Lemma C8_no_action_reply_can_raise_witness :
  contains "Final Answer:" ("Action Input: " ++ repeat 49%N 4301) = false
  /\ Forall (fun line => is_action_line line = false)
            (split (strip ("Action Input: " ++ repeat 49%N 4301)) nl)
  /\ run (lone_input (repeat 49%N 4301)) Fixture.agent "2+2?" tt
     = Some (Raise ValueError,
             replied entry ("Action Input: " ++ repeat 49%N 4301) tt).
Proof.
  apply (C8_no_action_reply_can_raise Json.cpython Fixture.agent "2+2?" tt
           4301 eq_refl).
  - apply Nat.ltb_lt. vm_compute. reflexivity.
  - split; apply Nat.ltb_lt; vm_compute; reflexivity.
Defined.

Lemma input_beyond_limits_reaches_the_caller_witness :
  run (lone_input (repeat 49%N 4301)) Fixture.agent "2+2?" tt
  = Some (Raise ValueError,
          replied entry ("Action Input: " ++ repeat 49%N 4301) tt).
Proof.
  apply (proj1 (proj2 (input_beyond_limits_reaches_the_caller Json.cpython
                         Fixture.agent "2+2?" tt 4301 eq_refl))).
  - apply Nat.ltb_lt. vm_compute. reflexivity.
  - split; apply Nat.ltb_lt; vm_compute; reflexivity.
Defined.

Lemma nothing_is_read_after_goodbye_witness :
  Sample.main (Some (py "key")) ([Cli.Line "hello"] ++ Cli.Interrupt :: [Cli.Line "more"])
  = Sample.main (Some (py "key")) ([Cli.Line "hello"] ++ [Cli.Interrupt]).
Proof.
  apply (nothing_is_read_after_goodbye Json.cpython failing
           (constant "12:00")
           (constant "sunny") (constant "none") (always "Final Answer: ok")
           lower describe).
  reflexivity.
Defined.


End ExtraWitnesses.
